(** * HomaraSite: the Electron session bridge and the web sign-in modal

    A shallow embedding of [src/FirebaseAuth/main.js] (the Electron main
    process: authentication state, the push channel, the connection monitor
    and the IPC handlers) and of the error table of
    [src/MenuLAUNCH/auth.js] ([HomaraAuth.getFirebaseErrorMessage]).

    The main process is single threaded: every handler runs to completion,
    and an [await] splits a handler in the part before the request is issued
    and the part that runs when the request settles. The model is a labelled
    transition system: one [Event] per callback the runtime can invoke, a
    [State] holding the module variables of main.js together with the
    objects they point to, and a list of [Effect]s for what a callback does
    to the outside world.

    The last part of the definitions covers the web pages of the site: the
    sidebar menu of [src/MenuLAUNCH/menu.js] and the modals and form checks
    of auth.js, as functions on the fields and the parts of the document
    their handlers read and write. *)

From Stdlib Require Import ZArith String Ascii List Bool DecimalString Lia.
From stdpp Require Import base option gmap strings list.
Local Open Scope string_scope.
Local Open Scope list_scope.
Set Warnings "-register-all".

(** ** JavaScript values

    What arrives over HTTP and over the socket is JSON data. The program
    only prints numbers and tests them for truthiness, so a number is kept
    as what these two look at. A string is held as the bytes of its UTF-8
    encoding. The fields of an object are in the order in which the object
    enumerates its properties. *)

(** A number: the text ToString gives for it (a decimal, in exponent form
    from 1e21 on, or one of NaN, Infinity and -Infinity), and whether it is
    one of the falsy numbers 0, -0 and NaN. *)
Record Number : Type := { toText : string; isZeroOrNaN : bool }.

Inductive JsVal : Type :=
| JUndefined
| JNull
| JBool (b : bool)
| JNum (n : Number)
| JStr (s : string)
| JArr (items : list JsVal)
| JObj (fields : list (string * JsVal)).

(** ToBoolean: what [if (v)], [!v] and [v || w] look at. *)
Definition truthy (v : JsVal) : bool :=
  match v with
  | JUndefined | JNull => false
  | JBool b => b
  | JNum n => negb (isZeroOrNaN n)
  | JStr s => negb (String.eqb s "")
  | JArr _ | JObj _ => true
  end.

Definition nullish (v : JsVal) : bool :=
  match v with
  | JUndefined | JNull => true
  | _ => false
  end.

(** [a || b] *)
Definition js_or (a b : JsVal) : JsVal := if truthy a then a else b.

Fixpoint assoc (k : string) (fields : list (string * JsVal)) : JsVal :=
  match fields with
  | [] => JUndefined
  | (k', v) :: rest => if String.eqb k k' then v else assoc k rest
  end.

(** [v?.k]: the property [k] of [v], [undefined] when [v] has none. None of
    the property names main.js reads ([success], [message], [token],
    [customToken], [user], [userID], [username], [email],
    [ownedCommunities], [memberCommunities]) exists on a string, a number, a
    boolean or an array. *)
Definition member (v : JsVal) (k : string) : JsVal :=
  match v with
  | JObj fields => assoc k fields
  | _ => JUndefined
  end.

(** ToString, as used by template literals and by [new Error(message)]. *)
Fixpoint js_toString (v : JsVal) : string :=
  match v with
  | JUndefined => "undefined"
  | JNull => "null"
  | JBool b => if b then "true" else "false"
  | JNum n => toText n
  | JStr s => s
  | JArr items =>
      String.concat ","
        (map (fun x => if nullish x then "" else js_toString x) items)
  | JObj _ => "[object Object]"
  end.

(** A [try] block either completes or throws an error with a message. *)
Inductive Completion (A : Type) : Type :=
| Normal (a : A)
| Throw (message : string).
Arguments Normal {A} a.
Arguments Throw {A} message.

#[export] Instance completion_ret : MRet Completion := fun A a => Normal a.

#[export] Instance completion_bind : MBind Completion := fun A B k c =>
  match c with
  | Normal a => k a
  | Throw m => Throw m
  end.

(** [v.k]: a TypeError (with V8's message) when [v] is null or undefined. *)
Definition read (v : JsVal) (k : string) : Completion JsVal :=
  if nullish v
  then Throw ("Cannot read properties of " +:+ js_toString v +:+ " (reading '" +:+ k +:+ "')")
  else Normal (member v k).

(** ** JSON.stringify *)

Definition chr (n : nat) : string := String (ascii_of_nat n) EmptyString.

Definition hex_digit (n : nat) : string :=
  chr (if (n <? 10)%nat then 48 + n else 87 + n).

Definition json_escape (c : ascii) : string :=
  let n := nat_of_ascii c in
  if (n =? 34)%nat then chr 92 +:+ chr 34
  else if (n =? 92)%nat then chr 92 +:+ chr 92
  else if (n =? 8)%nat then chr 92 +:+ "b"
  else if (n =? 12)%nat then chr 92 +:+ "f"
  else if (n =? 10)%nat then chr 92 +:+ "n"
  else if (n =? 13)%nat then chr 92 +:+ "r"
  else if (n =? 9)%nat then chr 92 +:+ "t"
  else if (n <? 32)%nat then chr 92 +:+ "u00" +:+ hex_digit (n / 16) +:+ hex_digit (n mod 16)
  else String c EmptyString.

Fixpoint json_quote_body (s : string) : string :=
  match s with
  | EmptyString => ""
  | String c rest => json_escape c +:+ json_quote_body rest
  end.

Definition json_quote (s : string) : string := chr 34 +:+ json_quote_body s +:+ chr 34.

(** A number that is not finite prints as [null]. *)
Definition json_number (n : Number) : string :=
  if String.eqb (toText n) "NaN" || String.eqb (toText n) "Infinity"
     || String.eqb (toText n) "-Infinity"
  then "null"
  else toText n.

(** [None] is [undefined]: the result for [undefined] itself; inside an array
    it prints as [null], inside an object the property is left out.
    [JSON.stringify] does not throw on these values. *)
Fixpoint JSON_stringify (v : JsVal) : option string :=
  match v with
  | JUndefined => None
  | JNull => Some "null"
  | JBool b => Some (if b then "true" else "false")
  | JNum n => Some (json_number n)
  | JStr s => Some (json_quote s)
  | JArr items =>
      Some ("[" +:+ String.concat ","
                     (map (fun x => match JSON_stringify x with
                                    | Some t => t
                                    | None => "null"
                                    end) items) +:+ "]")
  | JObj fields =>
      Some ("{" +:+ String.concat ","
                     (flat_map (fun kv => match kv with
                                          | (k, x) =>
                                              match JSON_stringify x with
                                              | Some t => [json_quote k +:+ ":" +:+ t]
                                              | None => []
                                              end
                                          end) fields) +:+ "}")
  end.

(** [String.prototype.toLowerCase] on the ASCII letters. No character outside
    ASCII lower-cases to a letter of [get], [post], [put] or [delete], so for
    the dispatch of the api-call handler this is exact. *)
Definition lower_ascii (c : ascii) : ascii :=
  let n := nat_of_ascii c in
  if ((65 <=? n) && (n <=? 90))%nat then ascii_of_nat (n + 32) else c.

Fixpoint toLowerCase (s : string) : string :=
  match s with
  | EmptyString => EmptyString
  | String c rest => String (lower_ascii c) (toLowerCase rest)
  end.

(** [s.includes(q)] *)
Fixpoint includes (s q : string) : bool :=
  String.prefix q s ||
  match s with
  | EmptyString => false
  | String _ rest => includes rest q
  end.

(** ** What a renderer passes to websocket-send

    The structured clone IPC delivers can be JSON data, and it can be a value
    JSON data cannot be: a BigInt, an object that contains itself, a Date, a
    Map. Such a value is kept as what [JSON.stringify] makes of it: a text,
    [undefined], or the TypeError it throws (as for a BigInt and for a
    circular structure). *)
Inductive Message : Type :=
| Data (v : JsVal)
| Other (stringified : Completion (option string)).

(** [JSON.stringify(message)] *)
Definition stringify (message : Message) : Completion (option string) :=
  match message with
  | Data v => Normal (JSON_stringify v)
  | Other stringified => stringified
  end.

(** ** The data of main.js *)

Module UserData.
Record t : Type := {
  userId : JsVal;
  username : JsVal;
  email : JsVal;
  ownedCommunities : JsVal;
  memberCommunities : JsVal }.
End UserData.

(** [authState], the session record. *)
Record AuthState : Type := {
  isAuthenticated : bool;
  token : JsVal;
  userId : JsVal;
  username : JsVal;
  email : JsVal;
  userData : option UserData.t }.

(** The initial value of [authState], and the one [logoutUser] assigns. *)
Definition emptyAuthState : AuthState :=
  {| isAuthenticated := false; token := JNull; userId := JNull;
     username := JNull; email := JNull; userData := None |}.

(** [userDataToSend], the payload of the user-data message. *)
Module Snapshot.
Record t : Type := {
  username : JsVal;
  userId : JsVal;
  email : JsVal;
  isAuthenticated : bool;
  token : JsVal;
  serviceInitialized : bool;
  ownedCommunities : JsVal;
  memberCommunities : JsVal }.
End Snapshot.

(** A socket of the ws library: its address and its [readyState]. *)
Inductive ReadyState : Type := CONNECTING | OPEN | CLOSING | CLOSED.

Record WebSocket : Type := { url : string; readyState : ReadyState }.

(** [socket.close()] starts the closing handshake and returns; the socket is
    closed, and its close event emitted, later. *)
Definition close (ws : WebSocket) : WebSocket :=
  {| url := url ws;
     readyState := match readyState ws with
                   | CLOSED => CLOSED
                   | _ => CLOSING
                   end |}.

(** The axios instance, reduced to the one thing main.js changes on it:
    [defaults.headers.common['Authorization']]. *)
Record Axios : Type := { Authorization : option string }.

Inductive WindowKind : Type := AuthWindow | MainWindow.

Record BrowserWindow : Type := { kind : WindowKind; shown : bool }.

(** Which [await] an HTTP request in flight belongs to. *)
Inductive Request : Type := LoginRequest | ApiRequest | HealthRequest.

(** The module variables of main.js, then the objects of the runtime they
    refer to: every socket created so far, the running intervals, the windows
    not yet destroyed, the requests in flight, the next unused object
    identity, whether [app.whenReady()] has fired and the platform. *)
Record State : Type := {
  authState : AuthState;
  mainProcessWebSocket : option nat;
  axiosInstance : option Axios;
  connectionMonitorInterval : option nat;
  mainWindow : option nat;
  authWindow : option nat;
  sockets : gmap nat WebSocket;
  timers : gset nat;
  windows : gmap nat BrowserWindow;
  pending : gmap nat Request;
  nextId : nat;
  started : bool;
  darwin : bool }.

Definition set_authState (v : AuthState) (s : State) : State :=
  {| authState := v;
     mainProcessWebSocket := mainProcessWebSocket s;
     axiosInstance := axiosInstance s;
     connectionMonitorInterval := connectionMonitorInterval s;
     mainWindow := mainWindow s;
     authWindow := authWindow s;
     sockets := sockets s;
     timers := timers s;
     windows := windows s;
     pending := pending s;
     nextId := nextId s;
     started := started s;
     darwin := darwin s |}.

Definition set_mainProcessWebSocket (v : option nat) (s : State) : State :=
  {| authState := authState s;
     mainProcessWebSocket := v;
     axiosInstance := axiosInstance s;
     connectionMonitorInterval := connectionMonitorInterval s;
     mainWindow := mainWindow s;
     authWindow := authWindow s;
     sockets := sockets s;
     timers := timers s;
     windows := windows s;
     pending := pending s;
     nextId := nextId s;
     started := started s;
     darwin := darwin s |}.

Definition set_axiosInstance (v : option Axios) (s : State) : State :=
  {| authState := authState s;
     mainProcessWebSocket := mainProcessWebSocket s;
     axiosInstance := v;
     connectionMonitorInterval := connectionMonitorInterval s;
     mainWindow := mainWindow s;
     authWindow := authWindow s;
     sockets := sockets s;
     timers := timers s;
     windows := windows s;
     pending := pending s;
     nextId := nextId s;
     started := started s;
     darwin := darwin s |}.

Definition set_connectionMonitorInterval (v : option nat) (s : State) : State :=
  {| authState := authState s;
     mainProcessWebSocket := mainProcessWebSocket s;
     axiosInstance := axiosInstance s;
     connectionMonitorInterval := v;
     mainWindow := mainWindow s;
     authWindow := authWindow s;
     sockets := sockets s;
     timers := timers s;
     windows := windows s;
     pending := pending s;
     nextId := nextId s;
     started := started s;
     darwin := darwin s |}.

Definition set_mainWindow (v : option nat) (s : State) : State :=
  {| authState := authState s;
     mainProcessWebSocket := mainProcessWebSocket s;
     axiosInstance := axiosInstance s;
     connectionMonitorInterval := connectionMonitorInterval s;
     mainWindow := v;
     authWindow := authWindow s;
     sockets := sockets s;
     timers := timers s;
     windows := windows s;
     pending := pending s;
     nextId := nextId s;
     started := started s;
     darwin := darwin s |}.

Definition set_authWindow (v : option nat) (s : State) : State :=
  {| authState := authState s;
     mainProcessWebSocket := mainProcessWebSocket s;
     axiosInstance := axiosInstance s;
     connectionMonitorInterval := connectionMonitorInterval s;
     mainWindow := mainWindow s;
     authWindow := v;
     sockets := sockets s;
     timers := timers s;
     windows := windows s;
     pending := pending s;
     nextId := nextId s;
     started := started s;
     darwin := darwin s |}.

Definition set_sockets (v : gmap nat WebSocket) (s : State) : State :=
  {| authState := authState s;
     mainProcessWebSocket := mainProcessWebSocket s;
     axiosInstance := axiosInstance s;
     connectionMonitorInterval := connectionMonitorInterval s;
     mainWindow := mainWindow s;
     authWindow := authWindow s;
     sockets := v;
     timers := timers s;
     windows := windows s;
     pending := pending s;
     nextId := nextId s;
     started := started s;
     darwin := darwin s |}.

Definition set_timers (v : gset nat) (s : State) : State :=
  {| authState := authState s;
     mainProcessWebSocket := mainProcessWebSocket s;
     axiosInstance := axiosInstance s;
     connectionMonitorInterval := connectionMonitorInterval s;
     mainWindow := mainWindow s;
     authWindow := authWindow s;
     sockets := sockets s;
     timers := v;
     windows := windows s;
     pending := pending s;
     nextId := nextId s;
     started := started s;
     darwin := darwin s |}.

Definition set_windows (v : gmap nat BrowserWindow) (s : State) : State :=
  {| authState := authState s;
     mainProcessWebSocket := mainProcessWebSocket s;
     axiosInstance := axiosInstance s;
     connectionMonitorInterval := connectionMonitorInterval s;
     mainWindow := mainWindow s;
     authWindow := authWindow s;
     sockets := sockets s;
     timers := timers s;
     windows := v;
     pending := pending s;
     nextId := nextId s;
     started := started s;
     darwin := darwin s |}.

Definition set_pending (v : gmap nat Request) (s : State) : State :=
  {| authState := authState s;
     mainProcessWebSocket := mainProcessWebSocket s;
     axiosInstance := axiosInstance s;
     connectionMonitorInterval := connectionMonitorInterval s;
     mainWindow := mainWindow s;
     authWindow := authWindow s;
     sockets := sockets s;
     timers := timers s;
     windows := windows s;
     pending := v;
     nextId := nextId s;
     started := started s;
     darwin := darwin s |}.

Definition set_nextId (v : nat) (s : State) : State :=
  {| authState := authState s;
     mainProcessWebSocket := mainProcessWebSocket s;
     axiosInstance := axiosInstance s;
     connectionMonitorInterval := connectionMonitorInterval s;
     mainWindow := mainWindow s;
     authWindow := authWindow s;
     sockets := sockets s;
     timers := timers s;
     windows := windows s;
     pending := pending s;
     nextId := v;
     started := started s;
     darwin := darwin s |}.

Definition set_started (v : bool) (s : State) : State :=
  {| authState := authState s;
     mainProcessWebSocket := mainProcessWebSocket s;
     axiosInstance := axiosInstance s;
     connectionMonitorInterval := connectionMonitorInterval s;
     mainWindow := mainWindow s;
     authWindow := authWindow s;
     sockets := sockets s;
     timers := timers s;
     windows := windows s;
     pending := pending s;
     nextId := nextId s;
     started := v;
     darwin := darwin s |}.

Definition initial_state (mac : bool) : State :=
  {| authState := emptyAuthState;
     mainProcessWebSocket := None;
     axiosInstance := None;
     connectionMonitorInterval := None;
     mainWindow := None;
     authWindow := None;
     sockets := ∅;
     timers := ∅;
     windows := ∅;
     pending := ∅;
     nextId := 0;
     started := false;
     darwin := mac |}.

(** ** What a callback does to the outside world *)

(** The messages main.js sends to a window, by channel. *)
Inductive Payload : Type :=
| UserDataMsg (u : Snapshot.t)        (* 'user-data' *)
| TriggerPreload                      (* 'trigger-preload' *)
| WebsocketStatus (connected : bool)  (* 'websocket-status' *)
| WebsocketError (error : string)     (* 'websocket-error' *)
| WebsocketMessage (message : JsVal). (* 'websocket-message' *)

(** What an [ipcMain.handle] handler resolves with. A failure is
    [{ success: false, error, status }]; [status] is [None] when it is
    undefined or not set. *)
Inductive Reply : Type :=
| LoginSucceeded (a : AuthState)      (* { success: true, authState } *)
| ApiSucceeded (data : JsVal)         (* { success: true, data } *)
| SendSucceeded                       (* { success: true } *)
| Failed (error : JsVal) (status : option Z)
| UserDataReply (u : option Snapshot.t)
| AuthStateReply (a : AuthState).

Inductive Effect : Type :=
| Send (w : nat) (p : Payload)        (* window.webContents.send(channel, data) *)
| HttpRequest (id : nat) (method path : string) (body : JsVal) (authorization : option string)
| WsConnect (k : nat) (address : string)      (* new WebSocket(address) *)
| WsClose (k : nat)                           (* socket.close() *)
| WsTransmit (k : nat) (data : option string) (* socket.send(data) *)
| Respond (r : Reply)
| WindowOpen (w : nat) (k : WindowKind)       (* new BrowserWindow(...) *)
| WindowClose (w : nat)                       (* window.close() *)
| AppQuit                                     (* app.quit() *)
| UncaughtException (message : string).       (* a callback threw; the process goes on *)

(** How a request settles: with a 2xx response, of which the code reads
    [response.data]; or by throwing an error with a [message] and, when the
    server answered, a [response] of which the code reads [data] and
    [status]. *)
Inductive HttpOutcome : Type :=
| Fulfilled (data : JsVal)
| Rejected (message : string) (response : option (JsVal * Z)).

(** ** Procedures: state passing with a log of effects *)

Definition Proc (A : Type) : Type := State -> A * State * list Effect.

#[export] Instance proc_ret : MRet Proc := fun A x s => (x, s, []).

#[export] Instance proc_bind : MBind Proc := fun A B k m s =>
  let '(x, s1, e1) := m s in
  let '(y, s2, e2) := k x s1 in
  (y, s2, e1 ++ e2).

Definition reads {A} (f : State -> A) : Proc A := fun s => (f s, s, []).
Definition update (f : State -> State) : Proc unit := fun s => (tt, f s, []).
Definition emits (es : list Effect) : Proc unit := fun s => (tt, s, es).
Definition emit (e : Effect) : Proc unit := emits [e].
Definition skip : Proc unit := mret tt.

(** A new object: its identity is the next unused one. *)
Definition newObject : Proc nat :=
  fun s => (nextId s, set_nextId (S (nextId s)) s, []).

(** ** main.js *)

(** [BrowserWindow.getAllWindows()]: the windows not yet destroyed. *)
Definition getAllWindows (s : State) : list nat := (map_to_list (windows s)).*1.

(** [broadcastToAllWindows] *)
Definition broadcastToAllWindows (p : Payload) : Proc unit :=
  ws ← reads getAllWindows;
  emits (map (fun w => Send w p) ws).

(** [mainProcessWebSocket.close()] on the socket [k]. *)
Definition closeSocket (k : nat) : Proc unit :=
  update (fun s => set_sockets (alter close k (sockets s)) s);;
  emit (WsClose k).

Definition wsUrl (uid : JsVal) : string :=
  "ws://127.0.0.1:3000/ws?userID=" +:+ js_toString uid +:+ "&clientType=desktop".

(** [new WebSocket(address)] throws a SyntaxError, before it connects, when
    the address has a fragment (ws 8). The addresses [wsUrl] builds end in
    ["&clientType=desktop"], so they have one exactly when they contain
    ['#'], that is, when the text of the user id does. *)
Definition refusesAddress (address : string) : bool := includes address "#".

Definition fragmentError : string := "The URL contains a fragment identifier".

(** [connectWebSocket]: [Throw] when the constructor threw, after the close of
    the previous socket and before the assignment of the handle. The four
    handlers it registers on the new socket are the socket events of [step]
    below; they stay registered on a socket that is no longer the current
    one. *)
Definition connectWebSocket (uid : JsVal) : Proc (Completion unit) :=
  ws ← reads mainProcessWebSocket;
  match ws with
  | Some k => closeSocket k
  | None => skip
  end;;
  if refusesAddress (wsUrl uid) then mret (Throw fragmentError)
  else
    k ← newObject;
    update (fun s => set_sockets (<[k := {| url := wsUrl uid; readyState := CONNECTING |}]> (sockets s)) s);;
    emit (WsConnect k (wsUrl uid));;
    update (set_mainProcessWebSocket (Some k));;
    mret (Normal tt).

(** An axios call: the request interceptor puts the current token on the
    request when there is one; otherwise the instance's default header, if
    set, stays. The request is then in flight. *)
Definition request (r : Request) (method path : string) (body : JsVal) (ax : Axios) : Proc unit :=
  id ← newObject;
  a ← reads authState;
  update (fun s => set_pending (<[id := r]> (pending s)) s);;
  emit (HttpRequest id method path body
          (if truthy (token a)
           then Some ("Bearer " +:+ js_toString (token a))
           else Authorization ax)).

(** [stopConnectionMonitoring] *)
Definition stopConnectionMonitoring : Proc unit :=
  t ← reads connectionMonitorInterval;
  match t with
  | Some i =>
      update (fun s => set_timers (timers s ∖ {[i]}) s);;
      update (set_connectionMonitorInterval None)
  | None => skip
  end.

(** [startConnectionMonitoring]; the callback it installs is
    [monitorConnection] below. *)
Definition startConnectionMonitoring : Proc unit :=
  t ← reads connectionMonitorInterval;
  match t with
  | Some i => update (fun s => set_timers (timers s ∖ {[i]}) s)
  | None => skip
  end;;
  i ← newObject;
  update (fun s => set_timers ({[i]} ∪ timers s) s);;
  update (set_connectionMonitorInterval (Some i)).

(** [!mainProcessWebSocket || mainProcessWebSocket.readyState !== WebSocket.OPEN]
    is the negation of this. *)
Definition channelOpen (s : State) : bool :=
  match mainProcessWebSocket s with
  | Some k =>
      match sockets s !! k with
      | Some ws => match readyState ws with OPEN => true | _ => false end
      | None => false
      end
  | None => false
  end.

(** The callback of the connection monitor's interval. It has no [try]: when
    [connectWebSocket] throws, the callback ends there, without the health
    check. *)
Definition monitorConnection : Proc unit :=
  a ← reads authState;
  if isAuthenticated a then
    connected ← reads channelOpen;
    reconnect ← (if negb connected
                 then if truthy (userId a) then connectWebSocket (userId a)
                      else mret (Normal tt)
                 else mret (Normal tt));
    match reconnect with
    | Throw m => emit (UncaughtException m)
    | Normal _ =>
        ax ← reads axiosInstance;
        match ax with
        | Some ax => request HealthRequest "GET" "/api/desktop/health" JUndefined ax
        | None => skip
        end
    end
  else skip.

(** The three places that build [userDataToSend] build the same object. *)
Definition userDataToSend (a : AuthState) : Snapshot.t :=
  {| Snapshot.username := js_or (username a) (JStr "Unknown");
     Snapshot.userId := userId a;
     Snapshot.email := email a;
     Snapshot.isAuthenticated := isAuthenticated a;
     Snapshot.token := token a;
     Snapshot.serviceInitialized := isAuthenticated a;
     Snapshot.ownedCommunities :=
       js_or (match userData a with
              | Some u => UserData.ownedCommunities u
              | None => JUndefined
              end) (JArr []);
     Snapshot.memberCommunities :=
       js_or (match userData a with
              | Some u => UserData.memberCommunities u
              | None => JUndefined
              end) (JArr []) |}.

(** [authenticateUser], from the response to the value assigned to
    [authState]: the checks and the object literal, either of which can
    throw. *)
Definition acceptLogin (data : JsVal) : Completion AuthState :=
  success ← read data "success";
  if negb (truthy success) then
    message ← read data "message";
    Throw (js_toString (js_or message (JStr "Login failed")))
  else
    tok ← read data "token";
    customToken ← read data "customToken";
    userInfo ← read data "user";
    userID ← read userInfo "userID";
    name ← read userInfo "username";
    mail ← read userInfo "email";
    owned ← read userInfo "ownedCommunities";
    joined ← read userInfo "memberCommunities";
    mret {| isAuthenticated := true;
            token := js_or tok customToken;
            userId := userID;
            username := name;
            email := mail;
            userData := Some {| UserData.userId := userID;
                                UserData.username := name;
                                UserData.email := mail;
                                UserData.ownedCommunities := js_or owned (JArr []);
                                UserData.memberCommunities := js_or joined (JArr []) |} |}.

(** [authenticateUser] up to its [await]: [Some m] when it threw [m] before
    issuing the request. *)
Definition authenticateUser_issue (mail password : JsVal) : Proc (option string) :=
  ax ← reads axiosInstance;
  match ax with
  | None => mret (Some "API client not initialized")
  | Some ax =>
      request LoginRequest "POST" "/api/auth/login"
        (JObj [("email", mail); ("password", password)]) ax;;
      mret None
  end.

(** [authenticateUser] from its [await] on. What throws after the assignment
    to [authState] is caught by the same [catch]: the login then fails with
    the session and the header already replaced. *)
Definition authenticateUser_settle (o : HttpOutcome) : Proc (Completion AuthState) :=
  match match o with
        | Fulfilled data => acceptLogin data
        | Rejected m _ => Throw m
        end with
  | Throw m => mret (Throw m)
  | Normal a =>
      update (set_authState a);;
      ax ← reads axiosInstance;
      match ax with
      | Some _ =>
          update (set_axiosInstance
                    (Some {| Authorization := Some ("Bearer " +:+ js_toString (token a)) |}))
      | None => skip
      end;;
      connected ← connectWebSocket (userId a);
      match connected with
      | Throw m => mret (Throw m)
      | Normal _ =>
          startConnectionMonitoring;;
          w ← reads mainWindow;
          match w with
          | Some m =>
              now ← reads authState;
              emit (Send m (UserDataMsg (userDataToSend now)))
          | None => skip
          end;;
          match w with
          | Some m => emit (Send m TriggerPreload)
          | None => skip
          end;;
          now ← reads authState;
          mret (Normal now)
      end
  end.

(** [logoutUser] *)
Definition logoutUser : Proc unit :=
  stopConnectionMonitoring;;
  ws ← reads mainProcessWebSocket;
  match ws with
  | Some k => closeSocket k
  | None => skip
  end;;
  ax ← reads axiosInstance;
  match ax with
  | Some _ => update (set_axiosInstance (Some {| Authorization := None |}))
  | None => skip
  end;;
  update (set_authState emptyAuthState).

Definition createWindow (k : WindowKind) : Proc nat :=
  w ← newObject;
  update (fun s => set_windows (<[w := {| kind := k; shown := false |}]> (windows s)) s);;
  emit (WindowOpen w k);;
  mret w.

Definition createAuthWindow : Proc unit :=
  w ← createWindow AuthWindow;
  update (set_authWindow (Some w)).

Definition createMainWindow : Proc unit :=
  w ← createWindow MainWindow;
  update (set_mainWindow (Some w)).

(** The handler of 'authenticate-user', once [authenticateUser] returned. *)
Definition authenticate_user_done (result : Completion AuthState) : Proc unit :=
  match result with
  | Normal a =>
      aw ← reads authWindow;
      match aw with
      | Some w => emit (WindowClose w);; update (set_authWindow None)
      | None => skip
      end;;
      createMainWindow;;
      emit (Respond (LoginSucceeded a))
  | Throw m => emit (Respond (Failed (JStr m) None))
  end.

Definition authenticate_user (mail password : JsVal) : Proc unit :=
  thrown ← authenticateUser_issue mail password;
  match thrown with
  | Some m => authenticate_user_done (Throw m)
  | None => skip
  end.

(** The handler of 'get-user-data'. *)
Definition get_user_data (s : State) : option Snapshot.t :=
  if negb (isAuthenticated (authState s)) then None
  else Some (userDataToSend (authState s)).

(** The handler of 'logout'. *)
Definition logout : Proc unit :=
  logoutUser;;
  mw ← reads mainWindow;
  match mw with
  | Some w => emit (WindowClose w);; update (set_mainWindow None)
  | None => skip
  end;;
  createAuthWindow.

(** The handler of 'api-call', up to its [await]. *)
Definition api_call (method endpoint : string) (data : JsVal) : Proc unit :=
  ax ← reads axiosInstance;
  match ax with
  | None => emit (Respond (Failed (JStr "API client not initialized") None))
  | Some ax =>
      let m := toLowerCase method in
      if String.eqb m "get" then request ApiRequest "GET" endpoint JUndefined ax
      else if String.eqb m "post" then request ApiRequest "POST" endpoint data ax
      else if String.eqb m "put" then request ApiRequest "PUT" endpoint data ax
      else if String.eqb m "delete" then request ApiRequest "DELETE" endpoint JUndefined ax
      else emit (Respond (Failed (JStr ("Unsupported HTTP method: " +:+ method)) None))
  end.

(** The handler of 'api-call' from its [await] on. *)
Definition api_call_settle (o : HttpOutcome) : Proc unit :=
  match o with
  | Fulfilled data => emit (Respond (ApiSucceeded data))
  | Rejected m response =>
      emit (Respond (Failed
                       (js_or match response with
                              | Some (d, _) => member d "message"
                              | None => JUndefined
                              end (JStr m))
                       (snd <$> response)))
  end.

(** The handler of 'websocket-send'. What [JSON.stringify] throws is caught
    and answered; [send] does not throw on an open socket. *)
Definition websocket_send (message : Message) : Proc unit :=
  connected ← reads channelOpen;
  ws ← reads mainProcessWebSocket;
  match ws with
  | Some k =>
      if (connected : bool)
      then match stringify message with
           | Normal data => emit (WsTransmit k data);; emit (Respond SendSucceeded)
           | Throw m => emit (Respond (Failed (JStr m) None))
           end
      else emit (Respond (Failed (JStr "WebSocket not connected") None))
  | None => emit (Respond (Failed (JStr "WebSocket not connected") None))
  end.

(** ** The callbacks the runtime invokes *)

Inductive Event : Type :=
| AppReady                                      (* app.whenReady() *)
| Activate                                      (* app.on('activate') *)
| WindowAllClosed                               (* app.on('window-all-closed') *)
| BeforeQuit                                    (* app.on('before-quit') *)
| WindowReadyToShow (w : nat)                   (* window.once('ready-to-show') *)
| WindowClosed (w : nat)                        (* window.on('closed') *)
| IpcAuthenticateUser (mail password : JsVal)   (* 'authenticate-user' *)
| IpcGetUserData                                (* 'get-user-data' *)
| IpcGetAuthState                               (* 'get-auth-state' *)
| IpcLogout                                     (* 'logout' *)
| IpcApiCall (method endpoint : string) (data : JsVal)  (* 'api-call' *)
| IpcWebsocketSend (message : Message)          (* 'websocket-send' *)
| HttpSettled (id : nat) (o : HttpOutcome)      (* an awaited request settles *)
| TimerTick (i : nat)                           (* the interval's callback *)
| WsOpen (k : nat)                              (* socket.on('open') *)
| WsClosed (k : nat)                            (* socket.on('close') *)
| WsError (k : nat) (message : string)          (* socket.on('error') *)
| WsMessage (k : nat) (frame : option JsVal).   (* socket.on('message'); None: JSON.parse threw *)

(** When the runtime can invoke a callback. An IPC message needs a renderer,
    that is a window; a request settles once; an interval fires until it is
    cleared; a socket opens from CONNECTING, delivers frames until it is
    closed, and emits its close event once. *)
Definition enabled (s : State) (e : Event) : bool :=
  match e with
  | AppReady => negb (started s)
  | Activate | BeforeQuit => started s
  | WindowAllClosed => started s && bool_decide (windows s = ∅)
  | WindowReadyToShow w =>
      match windows s !! w with
      | Some b => negb (shown b)
      | None => false
      end
  | WindowClosed w => bool_decide (is_Some (windows s !! w))
  | IpcAuthenticateUser _ _ | IpcGetUserData | IpcGetAuthState | IpcLogout
  | IpcApiCall _ _ _ | IpcWebsocketSend _ => negb (bool_decide (windows s = ∅))
  | HttpSettled id _ => bool_decide (is_Some (pending s !! id))
  | TimerTick i => bool_decide (i ∈ timers s)
  | WsOpen k =>
      match sockets s !! k with
      | Some ws => match readyState ws with CONNECTING => true | _ => false end
      | None => false
      end
  | WsMessage k _ =>
      match sockets s !! k with
      | Some ws => match readyState ws with OPEN | CLOSING => true | _ => false end
      | None => false
      end
  | WsClosed k | WsError k _ =>
      match sockets s !! k with
      | Some ws => match readyState ws with CLOSED => false | _ => true end
      | None => false
      end
  end.

Definition setReadyState (r : ReadyState) (k : nat) : Proc unit :=
  update (fun s => set_sockets (alter (fun ws => {| url := url ws; readyState := r |}) k (sockets s)) s).

(** The body of each callback. *)
Definition handle (e : Event) : Proc unit :=
  match e with
  | AppReady =>
      (* initializeMainProcessClients, createAuthWindow *)
      update (set_started true);;
      update (set_axiosInstance (Some {| Authorization := None |}));;
      createAuthWindow
  | Activate =>
      ws ← reads windows;
      if bool_decide (ws = ∅) then createAuthWindow else skip
  | WindowAllClosed =>
      logoutUser;;
      mac ← reads darwin;
      if (mac : bool) then skip else emit AppQuit
  | BeforeQuit => logoutUser
  | WindowReadyToShow w =>
      ws ← reads windows;
      update (fun s => set_windows (alter (fun b => {| kind := kind b; shown := true |}) w (windows s)) s);;
      match kind <$> ws !! w with
      | Some MainWindow =>
          (* mainWindow.show() throws when the variable was reset meanwhile *)
          mw ← reads mainWindow;
          a ← reads authState;
          match mw with
          | Some m => emit (Send m (UserDataMsg (userDataToSend a)))
          | None => skip
          end
      | _ => skip
      end
  | WindowClosed w =>
      ws ← reads windows;
      update (fun s => set_windows (delete w (windows s)) s);;
      match kind <$> ws !! w with
      | Some MainWindow => update (set_mainWindow None)
      | Some AuthWindow =>
          update (set_authWindow None);;
          mw ← reads mainWindow;
          match mw with
          | None => emit AppQuit
          | Some _ => skip
          end
      | None => skip
      end
  | IpcAuthenticateUser mail password => authenticate_user mail password
  | IpcGetUserData => u ← reads get_user_data; emit (Respond (UserDataReply u))
  | IpcGetAuthState => a ← reads authState; emit (Respond (AuthStateReply a))
  | IpcLogout => logout
  | IpcApiCall method endpoint data => api_call method endpoint data
  | IpcWebsocketSend message => websocket_send message
  | HttpSettled id o =>
      rs ← reads pending;
      update (fun s => set_pending (delete id (pending s)) s);;
      match rs !! id with
      | Some LoginRequest =>
          result ← authenticateUser_settle o;
          authenticate_user_done result
      | Some ApiRequest => api_call_settle o
      | Some HealthRequest => skip   (* a failure is logged *)
      | None => skip
      end
  | TimerTick _ => monitorConnection
  | WsOpen k =>
      setReadyState OPEN k;;
      broadcastToAllWindows (WebsocketStatus true)
  | WsClosed k =>
      setReadyState CLOSED k;;
      broadcastToAllWindows (WebsocketStatus false)
  | WsError k m =>
      setReadyState CLOSING k;;
      broadcastToAllWindows (WebsocketError m)
  | WsMessage k frame =>
      match frame with
      | Some message => broadcastToAllWindows (WebsocketMessage message)
      | None => skip   (* logged *)
      end
  end.

Definition step (s : State) (e : Event) : option (State * list Effect) :=
  if enabled s e
  then let '(_, s', effects) := handle e s in Some (s', effects)
  else None.

Fixpoint run (s : State) (es : list Event) : option (State * list Effect) :=
  match es with
  | [] => Some (s, [])
  | e :: rest =>
      match step s e with
      | Some (s1, effects1) =>
          match run s1 rest with
          | Some (s2, effects2) => Some (s2, effects1 ++ effects2)
          | None => None
          end
      | None => None
      end
  end.

(** The states the main process can be in, where every step is allowed by
    [ok]. *)
Inductive reachable_via (ok : State -> Event -> bool) : State -> Prop :=
| reachable_initial mac : reachable_via ok (initial_state mac)
| reachable_step s e s' effects :
    reachable_via ok s ->
    ok s e = true ->
    step s e = Some (s', effects) ->
    reachable_via ok s'.

Definition reachable : State -> Prop := reachable_via (fun _ _ => true).

(** [run], checking [ok] at every step. *)
Fixpoint run_via (ok : State -> Event -> bool) (s : State) (es : list Event) : option State :=
  match es with
  | [] => Some s
  | e :: rest =>
      if ok s e
      then match step s e with
           | Some (s1, _) => run_via ok s1 rest
           | None => None
           end
      else None
  end.

(** ** auth.js: the sign-in modal of the web site *)

Module HomaraAuth.

(** What a rejected Firebase call throws. *)
Record FirebaseError : Type := { code : option string; message : string }.

(** [getFirebaseErrorMessage] *)
Definition getFirebaseErrorMessage (error : FirebaseError) : string :=
  let other :=
    if String.eqb (message error) "" then "An error occurred. Please try again"
    else message error in
  match code error with
  | Some c =>
      if String.eqb c "auth/email-already-in-use" then "An account with this email already exists"
      else if String.eqb c "auth/invalid-email" then "Please enter a valid email address"
      else if String.eqb c "auth/weak-password" then "Password should be at least 6 characters"
      else if String.eqb c "auth/user-not-found" then "No account found with this email"
      else if String.eqb c "auth/wrong-password" then "Incorrect password"
      else if String.eqb c "auth/too-many-requests" then "Too many failed attempts. Please try again later"
      else other
  | None => other
  end.

(** The fields of the [HomaraAuth] object a failed sign-in could touch: the
    current user, and the text of the two error elements. *)
Record t : Type := {
  currentUser : option string;
  isAuthenticated : bool;
  signupError : string;
  loginError : string }.

(** [showError] *)
Definition showError (type message : string) (h : t) : t :=
  if String.eqb type "signup"
  then {| currentUser := currentUser h; isAuthenticated := isAuthenticated h;
          signupError := message; loginError := loginError h |}
  else {| currentUser := currentUser h; isAuthenticated := isAuthenticated h;
          signupError := signupError h; loginError := message |}.

(** The [catch] branch of [handleLogin]: [signInWithEmailAndPassword] threw
    [error]. *)
Definition handleLogin_rejected (error : FirebaseError) (h : t) : t :=
  showError "login" (getFirebaseErrorMessage error) h.

End HomaraAuth.

(** ** Predicates used in the statements *)

(** A value is present when it is neither [null] nor [undefined]. *)
Definition present (v : JsVal) : Prop := nullish v = false.

(** The login response reports success and carries a user object: the
    response [authenticateUser] accepts. *)
Definition accepted (data : JsVal) : bool :=
  truthy (member data "success") && negb (nullish (member data "user")).

(** The session record [authenticateUser] assigns for an accepted response. *)
Definition sessionOf (data : JsVal) : AuthState :=
  let user := member data "user" in
  {| isAuthenticated := true;
     token := js_or (member data "token") (member data "customToken");
     userId := member user "userID";
     username := member user "username";
     email := member user "email";
     userData := Some {| UserData.userId := member user "userID";
                         UserData.username := member user "username";
                         UserData.email := member user "email";
                         UserData.ownedCommunities := js_or (member user "ownedCommunities") (JArr []);
                         UserData.memberCommunities := js_or (member user "memberCommunities") (JArr []) |} |}.

(** The message of the error a login fails with. *)
Definition loginError (o : HttpOutcome) : string :=
  match o with
  | Rejected m _ => m
  | Fulfilled data =>
      if nullish data
      then "Cannot read properties of " +:+ js_toString data +:+ " (reading 'success')"
      else if truthy (member data "success")
      then "Cannot read properties of " +:+ js_toString (member data "user") +:+ " (reading 'userID')"
      else js_toString (js_or (member data "message") (JStr "Login failed"))
  end.

Definition loginAccepted (o : HttpOutcome) : option AuthState :=
  match o with
  | Fulfilled data => if accepted data then Some (sessionOf data) else None
  | Rejected _ _ => None
  end.

Definition isRespond (e : Effect) : bool :=
  match e with
  | Respond _ => true
  | _ => false
  end.

Definition isUserData (e : Effect) : bool :=
  match e with
  | Send _ (UserDataMsg _) => true
  | _ => false
  end.

Definition isSend (e : Effect) : bool :=
  match e with
  | Send _ _ => true
  | _ => false
  end.

Definition isWsConnect (e : Effect) : bool :=
  match e with
  | WsConnect _ _ => true
  | _ => false
  end.

Definition isHttpRequest (e : Effect) : bool :=
  match e with
  | HttpRequest _ _ _ _ _ => true
  | _ => false
  end.

Definition isWsTransmit (e : Effect) : bool :=
  match e with
  | WsTransmit _ _ => true
  | _ => false
  end.

(** The current channel is absent, or closing or closed. *)
Definition channelDown (s : State) : Prop :=
  forall k ws,
    mainProcessWebSocket s = Some k -> sockets s !! k = Some ws ->
    readyState ws = CLOSING \/ readyState ws = CLOSED.

(** What holds of every state the main process reaches. *)
Record Inv (s : State) : Prop := {
  inv_before_ready : started s = false -> s = initial_state (darwin s);
  inv_ready : started s = true -> is_Some (axiosInstance s);
  inv_unused : forall k, nextId s <= k -> sockets s !! k = None;
  inv_handle : forall k, mainProcessWebSocket s = Some k -> is_Some (sockets s !! k);
  inv_timers : timers s = match connectionMonitorInterval s with
                          | Some i => {[i]}
                          | None => ∅
                          end;
  inv_logged_out :
    isAuthenticated (authState s) = false ->
    authState s = emptyAuthState /\
    connectionMonitorInterval s = None /\
    (forall ax, axiosInstance s = Some ax -> Authorization ax = None) /\
    channelDown s }.

(** ** Example data and scenarios *)

(** A login response as the remote API documents it. *)
Definition goodResponse : JsVal :=
  JObj [("success", JBool true);
        ("token", JStr "tok");
        ("user", JObj [("userID", JStr "u1");
                       ("username", JStr "ann");
                       ("email", JStr "ann@example.org")])].

(** A response that reports success with an empty user object and no token. *)
Definition bareResponse : JsVal :=
  JObj [("success", JBool true); ("user", JObj [])].

(** A response that reports success and has no user object at all. *)
Definition userlessResponse : JsVal :=
  JObj [("success", JBool true); ("token", JStr "tok")].

(** A response that reports success, with a token and a user id but no
    e-mail address. *)
Definition noEmailResponse : JsVal :=
  JObj [("success", JBool true);
        ("token", JStr "tok");
        ("user", JObj [("userID", JStr "u1")])].

(** A response that reports success for a user whose id contains ['#']. *)
Definition fragmentResponse : JsVal :=
  JObj [("success", JBool true);
        ("token", JStr "tok");
        ("user", JObj [("userID", JStr "u#1");
                       ("username", JStr "ann");
                       ("email", JStr "ann@example.org")])].

(** The remote rejects the credentials, naming a failure code. *)
Definition wrongPasswordResponse : JsVal :=
  JObj [("success", JBool false);
        ("code", JStr "auth/wrong-password");
        ("message", JStr "auth/wrong-password")].

Definition credentials : Event :=
  IpcAuthenticateUser (JStr "ann@example.org") (JStr "secret").

(** The state a run from the start ends in ([initial_state] when an event of
    the run is not enabled). *)
Definition stateAfter (es : list Event) : State :=
  match run (initial_state false) es with
  | Some (s, _) => s
  | None => initial_state false
  end.

(** The application is ready and shows the sign-in window. *)
Definition signInShown : State := stateAfter [AppReady].

(** A login was issued (request 1) and has not settled. *)
Definition loginPending : State := stateAfter [AppReady; credentials].

(** Logged in, the sign-in window gone, the channel (socket 2) open, the main
    window (4) alive, the monitor's interval (3) running. *)
Definition loggedIn : State :=
  stateAfter [AppReady; credentials; HttpSettled 1 (Fulfilled goodResponse);
              WindowClosed 0; WsOpen 2].

(** In every login response that reports success with a user object, the
    value of [token || customToken] (the token when it is truthy, the
    customToken otherwise) and the user's id are neither null nor
    undefined. *)
Definition conforming (s : State) (e : Event) : bool :=
  match e with
  | HttpSettled id (Fulfilled data) =>
      match pending s !! id with
      | Some LoginRequest =>
          if accepted data
          then negb (nullish (token (sessionOf data))) &&
               negb (nullish (userId (sessionOf data)))
          else true
      | _ => true
      end
  | _ => true
  end.


(** While the session is authenticated its resources are in place: the
    default Authorization header is the session's token, and the monitor's
    interval is set unless the socket's constructor refuses the address built
    from the session's user id (the login that wrote the session then threw
    before startConnectionMonitoring). *)
Definition sessionUp (s : State) : Prop :=
  isAuthenticated (authState s) = true ->
  axiosInstance s =
    Some {| Authorization := Some ("Bearer " +:+ js_toString (token (authState s))) |} /\
  (refusesAddress (wsUrl (userId (authState s))) = false ->
   is_Some (connectionMonitorInterval s)).

(** Every socket but the current one is closing or closed. *)
Definition oneLiveChannel (s : State) : Prop :=
  forall k ws,
    sockets s !! k = Some ws -> mainProcessWebSocket s <> Some k ->
    readyState ws = CLOSING \/ readyState ws = CLOSED.

(** The Authorization header a request carries in state [s]. *)
Definition sessionHeader (s : State) : option string :=
  if isAuthenticated (authState s)
  then Some ("Bearer " +:+ js_toString (token (authState s)))
  else None.

(** What a socket event publishes to the windows: nothing for a frame that
    is not JSON. *)
Definition published (e : Event) : option Payload :=
  match e with
  | WsOpen _ => Some (WebsocketStatus true)
  | WsClosed _ => Some (WebsocketStatus false)
  | WsError _ m => Some (WebsocketError m)
  | WsMessage _ (Some message) => Some (WebsocketMessage message)
  | _ => None
  end.

Definition isSocketEvent (e : Event) : bool :=
  match e with
  | WsOpen _ | WsClosed _ | WsError _ _ | WsMessage _ _ => true
  | _ => false
  end.

(** ** Strings of the web pages

    The menu compares the query with its labels: its text is held as the
    bytes of its UTF-8 encoding, with [toLowerCase] and [includes] as above.
    The sign-in forms trim their values and measure them with [.length]: a
    form value is the sequence of its UTF-16 code units. *)

(** The code points [String.prototype.trim] removes, WhiteSpace and
    LineTerminator of ECMAScript: U+0009 to U+000D, U+0020, U+00A0, U+1680,
    U+2000 to U+200A, U+2028, U+2029, U+202F, U+205F, U+3000 and U+FEFF.
    Each is one code unit. *)
Definition whiteSpaces : list N :=
  [9; 10; 11; 12; 13; 32; 160; 5760;
   8192; 8193; 8194; 8195; 8196; 8197; 8198; 8199; 8200; 8201; 8202;
   8232; 8233; 8239; 8287; 12288; 65279]%N.

Definition isWhiteSpace (c : N) : bool := existsb (N.eqb c) whiteSpaces.

Fixpoint trimStart (s : list N) : list N :=
  match s with
  | [] => []
  | c :: rest => if isWhiteSpace c then trimStart rest else s
  end.

Fixpoint trimEnd (s : list N) : list N :=
  match s with
  | [] => []
  | c :: rest =>
      match trimEnd rest with
      | [] => if isWhiteSpace c then [] else [c]
      | kept => c :: kept
      end
  end.

(** [s.trim()] on code units. *)
Definition trim (s : list N) : list N := trimEnd (trimStart s).

(** [!s] for a string [s]. *)
Definition isEmpty (s : list N) : bool :=
  match s with
  | [] => true
  | _ :: _ => false
  end.

(** The code units of an ASCII text. *)
Definition codeUnits (s : string) : list N := map N_of_ascii (list_ascii_of_string s).

(** The UTF-8 encoding of a code point below U+10000, and of a sequence of
    them. *)
Definition utf8 (c : N) : string :=
  (if c <? 128 then String (ascii_of_N c) ""
   else if c <? 2048
   then String (ascii_of_N (192 + c / 64)) (String (ascii_of_N (128 + c mod 64)) "")
   else String (ascii_of_N (224 + c / 4096))
          (String (ascii_of_N (128 + (c / 64) mod 64))
             (String (ascii_of_N (128 + c mod 64)) "")))%N.

Fixpoint utf8s (cs : list N) : string :=
  match cs with
  | [] => ""
  | c :: rest => utf8 c +:+ utf8s rest
  end.

Definition continuation (b : N) : bool := ((128 <=? b) && (b <? 192))%N.

(** [s.trim() === ''] on UTF-8 text: [s] is a sequence of white space. The
    code points are decoded one after the other, from one, two or three
    bytes; no code point of four bytes is white space. *)
Fixpoint isBlank (s : string) : bool :=
  match s with
  | EmptyString => true
  | String a r =>
      let a := N_of_ascii a in
      if (a <? 128)%N then isWhiteSpace a && isBlank r
      else
        match r with
        | EmptyString => false
        | String b r =>
            let b := N_of_ascii b in
            if (a <? 224)%N
            then (194 <=? a)%N && continuation b
                 && isWhiteSpace ((a - 192) * 64 + (b - 128))%N && isBlank r
            else
              match r with
              | EmptyString => false
              | String c r =>
                  let c := N_of_ascii c in
                  (a <? 240)%N && continuation b && continuation c
                  && (2048 <=? (a - 224) * 4096 + (b - 128) * 64 + (c - 128))%N
                  && isWhiteSpace ((a - 224) * 4096 + (b - 128) * 64 + (c - 128))%N
                  && isBlank r
              end
        end
  end.

(** ** menu.js: the sidebar menu of the web site *)

Module HomaraMenu.

(** An entry of [menuConfig]; [action] is the key its closure passes to
    [handleMenuClick]. *)
Record MenuItem : Type := {
  text : string;
  icon : string;
  iconType : string;
  action : string }.

Definition menuConfig : list MenuItem :=
  [ {| text := "Home"; icon := "image.png"; iconType := "png"; action := "home" |};
    {| text := "Apply"; icon := "applyicon.PNG"; iconType := "png"; action := "apply" |};
    {| text := "Build"; icon := "build-icon.svg"; iconType := "svg"; action := "build" |};
    {| text := "Community Preview"; icon := "eye-icon.svg"; iconType := "svg";
       action := "community-preview" |};
    {| text := "Edit Your Point"; icon := "point-icon.svg"; iconType := "svg";
       action := "edit-point" |};
    {| text := "Point Management"; icon := "manage-icon.svg"; iconType := "svg";
       action := "point-management" |} ].

Definition bottomMenuConfig : list MenuItem :=
  [ {| text := "Settings & Help"; icon := "settingsicon.PNG"; iconType := "png";
       action := "settings-help" |} ].

(** A generated [.menu-item]: the text of its [.menu-item-text] and its
    [style.display]. *)
Record Element : Type := { textContent : string; display : string }.

(** The fields of the [HomaraMenu] object and the parts of the document its
    methods read and write. *)
Record t : Type := {
  isExpanded : bool;
  isHovered : bool;
  isMinimized : bool;
  classList : gset string;        (* this.sidebar.classList *)
  menuTooltip : string;           (* this.menuTooltip.textContent *)
  searchInput : string;           (* this.searchInput.value *)
  menuItems : list Element;
  bottomMenuItems : list Element }.

(** What a handler does besides: [alert], a navigation, a focus. The calls
    to [console.log] and to [window.homaraAuth.updateProfileIconVisibility],
    which write nothing of the menu, are left out. *)
Inductive Action : Type :=
| Alert (message : string)
| Navigate (href : string)
| FocusSearch.

(** [updateTooltipText] *)
Definition updateTooltipText (m : t) : t :=
  {| isExpanded := isExpanded m; isHovered := isHovered m; isMinimized := isMinimized m;
     classList := classList m;
     menuTooltip :=
       if isMinimized m then ""
       else if isExpanded m then "Collapse menu"
       else if isHovered m || bool_decide ("expanded" ∈ classList m) then "Keep menu expanded"
       else "Expand menu";
     searchInput := searchInput m;
     menuItems := menuItems m; bottomMenuItems := bottomMenuItems m |}.

(** [togglePinnedState] *)
Definition togglePinnedState (m : t) : t :=
  if isMinimized m then m
  else
    let expanded := negb (isExpanded m) in
    updateTooltipText
      {| isExpanded := expanded; isHovered := isHovered m; isMinimized := isMinimized m;
         classList := if expanded then {["expanded"]} ∪ classList m
                      else classList m ∖ {["expanded"]};
         menuTooltip := menuTooltip m; searchInput := searchInput m;
         menuItems := menuItems m; bottomMenuItems := bottomMenuItems m |}.

(** [minimizeMenu] *)
Definition minimizeMenu (m : t) : t :=
  updateTooltipText
    {| isExpanded := false; isHovered := false; isMinimized := true;
       classList := {["minimized"]} ∪ (classList m ∖ {["expanded"]});
       menuTooltip := menuTooltip m; searchInput := searchInput m;
       menuItems := menuItems m; bottomMenuItems := bottomMenuItems m |}.

(** [restoreMenu] *)
Definition restoreMenu (m : t) : t :=
  updateTooltipText
    {| isExpanded := isExpanded m; isHovered := isHovered m; isMinimized := false;
       classList := classList m ∖ {["minimized"]};
       menuTooltip := menuTooltip m; searchInput := searchInput m;
       menuItems := menuItems m; bottomMenuItems := bottomMenuItems m |}.

Definition setHovered (h : bool) (m : t) : t :=
  {| isExpanded := isExpanded m; isHovered := h; isMinimized := isMinimized m;
     classList := classList m; menuTooltip := menuTooltip m; searchInput := searchInput m;
     menuItems := menuItems m; bottomMenuItems := bottomMenuItems m |}.

(** The sidebar's [mouseenter] listener; [overIcon] is
    [e.target.closest('.menu-icon')]. *)
Definition mouseenter (overIcon : bool) (m : t) : t :=
  if negb (isExpanded m) && negb (isMinimized m) && negb overIcon
  then updateTooltipText (setHovered true m)
  else m.

(** The sidebar's [mouseleave] listener. *)
Definition mouseleave (m : t) : t :=
  if negb (isExpanded m) && negb (isMinimized m)
  then updateTooltipText (setHovered false m)
  else m.

Definition setItems (main bottom : list Element) (m : t) : t :=
  {| isExpanded := isExpanded m; isHovered := isHovered m; isMinimized := isMinimized m;
     classList := classList m; menuTooltip := menuTooltip m; searchInput := searchInput m;
     menuItems := main; bottomMenuItems := bottom |}.

Definition setDisplay (d : string) (e : Element) : Element :=
  {| textContent := textContent e; display := d |}.

(** [showAllMenuItems] *)
Definition showAllMenuItems (m : t) : t :=
  setItems (map (setDisplay "flex") (menuItems m)) (map (setDisplay "flex") (bottomMenuItems m)) m.

(** [filterMenuItems] *)
Definition filterMenuItems (query : string) (m : t) : t :=
  let lowerQuery := toLowerCase query in
  let filter e :=
    if includes (toLowerCase (textContent e)) lowerQuery
    then setDisplay "flex" e
    else setDisplay "none" e in
  setItems (map filter (menuItems m)) (map filter (bottomMenuItems m)) m.

(** [handleSearch] *)
Definition handleSearch (query : string) (m : t) : t :=
  if isBlank query then showAllMenuItems m else filterMenuItems query m.

(** [handleSearchSubmit] *)
Definition handleSearchSubmit (query : string) : list Action :=
  if negb (isBlank query) then [Alert ("Searching for: " +:+ query)] else [].

Definition setSearchInput (v : string) (m : t) : t :=
  {| isExpanded := isExpanded m; isHovered := isHovered m; isMinimized := isMinimized m;
     classList := classList m; menuTooltip := menuTooltip m; searchInput := v;
     menuItems := menuItems m; bottomMenuItems := bottomMenuItems m |}.

(** [clearSearch] *)
Definition clearSearch (m : t) : t := showAllMenuItems (setSearchInput "" m).

(** The table of [handleMenuClick]. *)
Definition actionNames : list (string * string) :=
  [ ("home", "Home"); ("apply", "Apply"); ("build", "Build");
    ("community-preview", "Community Preview"); ("edit-point", "Edit Your Point");
    ("point-management", "Point Management"); ("view-controls", "View Controls");
    ("settings-help", "Settings & Help") ].

Fixpoint tableLookup (k : string) (table : list (string * string)) : option string :=
  match table with
  | [] => None
  | (k', v) :: rest => if String.eqb k k' then Some v else tableLookup k rest
  end.

(** The names an object literal inherits from [Object.prototype]: for these
    [actionNames[action]] is not a string of the table. *)
Definition inherited (k : string) : bool :=
  existsb (String.eqb k)
    [ "constructor"; "__proto__"; "hasOwnProperty"; "isPrototypeOf"; "propertyIsEnumerable";
      "toLocaleString"; "toString"; "valueOf"; "__defineGetter__"; "__defineSetter__";
      "__lookupGetter__"; "__lookupSetter__" ].

(** [handleMenuClick]; [None] for an action that names an inherited
    property, whose text is outside this model. *)
Definition handleMenuClick (action : string) : option Action :=
  if String.eqb action "home" then Some (Navigate "../index.html")
  else
    match tableLookup action actionNames with
    | Some name =>
        Some (Alert ("Navigating to: " +:+ (if String.eqb name "" then action else name)))
    | None =>
        if inherited action then None else Some (Alert ("Navigating to: " +:+ action))
    end.

(** [generateMenuItems] *)
Definition generateMenuItems (m : t) : t :=
  let createMenuItem (item : MenuItem) := {| textContent := text item; display := "" |} in
  setItems (map createMenuItem menuConfig) (map createMenuItem bottomMenuConfig) m.

(** The constructor and [init]; [classes] and [value] are what the page
    gives the sidebar and the search box. *)
Definition init (classes : gset string) (value : string) : t :=
  updateTooltipText
    (generateMenuItems
       {| isExpanded := false; isHovered := false; isMinimized := false;
          classList := classes; menuTooltip := ""; searchInput := value;
          menuItems := []; bottomMenuItems := [] |}).

(** The listeners [attachEventListeners] installs. *)
Inductive Event : Type :=
| MenuIconClick
| MouseEnter (overIcon : bool)
| MouseLeave
| MinimizeClick
| PullTabClick
| KeyDown (ctrlKey metaKey : bool) (key : string)   (* on the document *)
| SearchInput (value : string)                      (* the user edited the box *)
| SearchKeyDown (key : string)
| MenuItemClick (index : nat).                      (* the index-th generated item *)

Definition handle (e : Event) (m : t) : t * list Action :=
  match e with
  | MenuIconClick => (togglePinnedState m, [])
  | MouseEnter overIcon => (mouseenter overIcon m, [])
  | MouseLeave => (mouseleave m, [])
  | MinimizeClick => (minimizeMenu m, [])
  | PullTabClick => (restoreMenu m, [])
  | KeyDown ctrlKey metaKey key =>
      let m1 := if (ctrlKey || metaKey) && String.eqb key "m" then togglePinnedState m else m in
      (m1,
       if (ctrlKey || metaKey) && String.eqb key "f" && (isExpanded m1 || isHovered m1)
       then [FocusSearch] else [])
  | SearchInput value => (handleSearch value (setSearchInput value m), [])
  | SearchKeyDown key =>
      if String.eqb key "Enter" then (m, handleSearchSubmit (searchInput m))
      else if String.eqb key "Escape" then (clearSearch m, [])
      else (m, [])
  | MenuItemClick index =>
      (m, match nth_error (menuConfig ++ bottomMenuConfig) index with
          | Some item =>
              match handleMenuClick (action item) with
              | Some a => [a]
              | None => []
              end
          | None => []
          end)
  end.

Definition run (m : t) (es : list Event) : t := fold_left (fun m e => fst (handle e m)) es m.

(** The states the menu reaches on a page whose sidebar starts with neither
    of the two classes the menu manages. *)
Inductive reachable : t -> Prop :=
| reachable_init classes value :
    "expanded" ∉ classes -> "minimized" ∉ classes -> reachable (init classes value)
| reachable_handle m e : reachable m -> reachable (fst (handle e m)).

(** The tooltip [updateTooltipText] computes, from the three flags alone. *)
Definition tooltipOf (m : t) : string :=
  if isMinimized m then ""
  else if isExpanded m then "Collapse menu"
  else if isHovered m then "Keep menu expanded"
  else "Expand menu".

(** The flags and the two classes agree, a minimized menu is neither pinned
    nor hovered, and the tooltip is up to date. *)
Definition consistent (m : t) : Prop :=
  ("expanded" ∈ classList m <-> isExpanded m = true) /\
  ("minimized" ∈ classList m <-> isMinimized m = true) /\
  (isMinimized m = true -> isExpanded m = false /\ isHovered m = false) /\
  menuTooltip m = tooltipOf m.

(** An element is shown when its [style.display] is not ['none']. *)
Definition shown (e : Element) : bool := negb (String.eqb (display e) "none").

End HomaraMenu.

(** ** auth.js: the modals of the sign-in form *)

Module HomaraAuthModal.

(** Which of the overlay and the three modals carry the class ['active'],
    and the text of the two error elements. The form inputs are read by the
    submit handlers and are their arguments here. *)
Record t : Type := {
  authOverlay : bool;
  signupModal : bool;
  loginModal : bool;
  editProfileModal : bool;
  signupError : string;
  loginError : string }.

(** [clearErrors] *)
Definition clearErrors (m : t) : t :=
  {| authOverlay := authOverlay m; signupModal := signupModal m; loginModal := loginModal m;
     editProfileModal := editProfileModal m; signupError := ""; loginError := "" |}.

(** [showSignupModal] *)
Definition showSignupModal (m : t) : t :=
  let m := clearErrors m in
  {| authOverlay := true; signupModal := true; loginModal := false;
     editProfileModal := editProfileModal m;
     signupError := signupError m; loginError := loginError m |}.

(** [showLoginModal] *)
Definition showLoginModal (m : t) : t :=
  let m := clearErrors m in
  {| authOverlay := true; signupModal := false; loginModal := true;
     editProfileModal := editProfileModal m;
     signupError := signupError m; loginError := loginError m |}.

(** [closeModals] *)
Definition closeModals (m : t) : t :=
  clearErrors
    {| authOverlay := false; signupModal := false; loginModal := false;
       editProfileModal := editProfileModal m;
       signupError := signupError m; loginError := loginError m |}.

(** [showEditProfileModal], as far as the classes go. *)
Definition showEditProfileModal (m : t) : t :=
  {| authOverlay := true; signupModal := signupModal m; loginModal := loginModal m;
     editProfileModal := true;
     signupError := signupError m; loginError := loginError m |}.

(** [closeEditProfileModal], as far as the classes go. *)
Definition closeEditProfileModal (m : t) : t :=
  {| authOverlay := false; signupModal := signupModal m; loginModal := loginModal m;
     editProfileModal := false;
     signupError := signupError m; loginError := loginError m |}.

(** The document's [keydown] listener, for the Escape key. *)
Definition escape (m : t) : t :=
  if authOverlay m then closeModals m
  else if editProfileModal m then closeEditProfileModal m
  else m.

(** [showError] *)
Definition showError (type message : string) (m : t) : t :=
  if String.eqb type "signup"
  then {| authOverlay := authOverlay m; signupModal := signupModal m; loginModal := loginModal m;
          editProfileModal := editProfileModal m;
          signupError := message; loginError := loginError m |}
  else {| authOverlay := authOverlay m; signupModal := signupModal m; loginModal := loginModal m;
          editProfileModal := editProfileModal m;
          signupError := signupError m; loginError := message |}.

(** What a submit handler does after its checks; the values are sequences
    of code units. *)
Inductive Submission : Type :=
| Refused (m : t)                                   (* an error is shown, nothing is sent *)
| CreateUser (email password username : list N)     (* createUserWithEmailAndPassword *)
| SignIn (email password : list N).                 (* signInWithEmailAndPassword *)

(** [handleSignup] up to its [await]; the arguments are the values of the
    three inputs. *)
Definition handleSignup (emailValue usernameValue passwordValue : list N) (m : t) : Submission :=
  let email := trim emailValue in
  let username := trim usernameValue in
  let password := passwordValue in
  if isEmpty email || isEmpty username || isEmpty password
  then Refused (showError "signup" "Please fill in all fields" m)
  else if (length password <? 6)%nat
  then Refused (showError "signup" "Password must be at least 6 characters" m)
  else CreateUser email password username.

(** [handleLogin] up to its [await]. *)
Definition handleLogin (emailValue passwordValue : list N) (m : t) : Submission :=
  let email := trim emailValue in
  let password := passwordValue in
  if isEmpty email || isEmpty password
  then Refused (showError "login" "Please fill in all fields" m)
  else SignIn email password.

End HomaraAuthModal.

(** The answer of websocket-send without an open channel. *)
Definition notConnectedReply : Effect :=
  Respond (Failed (JStr "WebSocket not connected") None).

(** * Proofs *)

Ltac fields H :=
  cbn [authState mainProcessWebSocket axiosInstance connectionMonitorInterval mainWindow authWindow
       sockets timers windows pending nextId started darwin
       set_authState set_mainProcessWebSocket set_axiosInstance set_connectionMonitorInterval
       set_mainWindow set_authWindow set_sockets set_timers set_windows set_pending set_nextId
       set_started] in H.

Ltac flatten :=
  cbv [authState mainProcessWebSocket axiosInstance connectionMonitorInterval mainWindow authWindow
       sockets timers windows pending nextId started darwin fst snd
       set_authState set_mainProcessWebSocket set_axiosInstance set_connectionMonitorInterval
       set_mainWindow set_authWindow set_sockets set_timers set_windows set_pending set_nextId
       set_started].

Lemma bind_inv {A B} (m : Proc A) (k : A -> Proc B) s y s2 es :
  (m ≫= k) s = (y, s2, es) ->
  exists x s1 e1 e2, m s = (x, s1, e1) /\ k x s1 = (y, s2, e2) /\ es = e1 ++ e2.
Proof.
  unfold mbind, proc_bind. destruct (m s) as [[x s1] e1].
  destruct (k x s1) as [[y' s2'] e2] eqn:Hk. intros [= <- <- <-]. exists x, s1, e1, e2. auto.
Qed.

Lemma ret_inv {A} (a : A) s x s1 es : (mret a : Proc A) s = (x, s1, es) -> x = a /\ s1 = s /\ es = [].
Proof. intros [= <- <- <-]. auto. Qed.

Lemma reads_inv {A} (f : State -> A) s x s1 es : reads f s = (x, s1, es) -> x = f s /\ s1 = s /\ es = [].
Proof. intros [= <- <- <-]. auto. Qed.

Lemma update_inv f s x s1 es : update f s = (x, s1, es) -> s1 = f s /\ es = [].
Proof. intros [= <- <- <-]. auto. Qed.

Lemma emits_inv l s x s1 es : emits l s = (x, s1, es) -> s1 = s /\ es = l.
Proof. intros [= <- <- <-]. auto. Qed.

Lemma newObject_inv s x s1 es :
  newObject s = (x, s1, es) -> x = nextId s /\ s1 = set_nextId (S (nextId s)) s /\ es = [].
Proof. intros [= <- <- <-]. auto. Qed.

(** Forward symbolic execution of a procedure from [H : p s = (x, s', es)]. *)
Ltac unfold_proc H :=
  unfold handle, logout, logoutUser, stopConnectionMonitoring, startConnectionMonitoring,
    connectWebSocket, closeSocket, monitorConnection, authenticate_user, authenticateUser_issue,
    authenticateUser_settle, authenticate_user_done, createAuthWindow, createMainWindow, createWindow,
    api_call, api_call_settle, websocket_send, request, broadcastToAllWindows, setReadyState,
    skip, emit in H.

Ltac exec H :=
  cbv beta in H; fields H;
  lazymatch type of H with
  | mbind _ _ _ = _ =>
      let H1 := fresh "H" in let H2 := fresh "H" in
      apply bind_inv in H; destruct H as (? & ? & ? & ? & H1 & H2 & ->);
      exec H1; exec H2
  | mret _ _ = _ =>
      let Hx := fresh "H" in
      apply ret_inv in H; destruct H as (Hx & -> & ->);
      lazymatch type of Hx with ?v = _ => first [subst v | clear Hx] end
  | reads _ _ = _ =>
      let Hx := fresh "H" in
      apply reads_inv in H; destruct H as (Hx & -> & ->);
      lazymatch type of Hx with ?v = _ => first [subst v | clear Hx] end
  | update _ _ = _ => apply update_inv in H; destruct H as (-> & ->)
  | emits _ _ = _ => apply emits_inv in H; destruct H as (-> & ->)
  | newObject _ = _ => apply newObject_inv in H; destruct H as (-> & -> & ->)
  | ?p _ = _ =>
      lazymatch p with
      | match ?x with _ => _ end => destruct x eqn:?; exec H
      | _ => first [progress unfold_proc H; exec H | idtac]
      end
  end.

Lemma unused_alter (f : WebSocket -> WebSocket) j n (so : gmap nat WebSocket) :
  (forall k, n <= k -> so !! k = None) -> forall k, n <= k -> alter f j so !! k = None.
Proof.
  intros H k Hk. destruct (decide (j = k)) as [->|Hne].
  - rewrite lookup_alter_eq, (H k Hk). reflexivity.
  - rewrite lookup_alter_ne by done. auto.
Qed.

Lemma unused_insert n x (so : gmap nat WebSocket) :
  (forall k, n <= k -> so !! k = None) -> forall k, S n <= k -> <[n := x]> so !! k = None.
Proof.
  intros H k Hk. rewrite lookup_insert_ne by lia. apply H. lia.
Qed.

Lemma unused_weaken n (so : gmap nat WebSocket) :
  (forall k, n <= k -> so !! k = None) -> forall k, S n <= k -> so !! k = None.
Proof. intros H k Hk. apply H. lia. Qed.

Lemma is_Some_alter (f : WebSocket -> WebSocket) j k (so : gmap nat WebSocket) :
  is_Some (so !! k) -> is_Some (alter f j so !! k).
Proof.
  intros [x Hx]. destruct (decide (j = k)) as [->|Hne].
  - rewrite lookup_alter_eq, Hx. eauto.
  - rewrite lookup_alter_ne by done. eauto.
Qed.

Lemma close_down ws : readyState (close ws) = CLOSING \/ readyState (close ws) = CLOSED.
Proof. destruct ws as [u []]; cbn; auto. Qed.

Lemma acceptLogin_accepted data :
  accepted data = true -> acceptLogin data = Normal (sessionOf data).
Proof.
  unfold accepted, acceptLogin, read. intros H.
  apply andb_prop in H as [Hs Hu].
  destruct (nullish data) eqn:Hd.
  { destruct data; discriminate. }
  cbn. rewrite Hs. cbn.
  apply negb_true_iff in Hu. rewrite Hu. cbn. reflexivity.
Qed.

Lemma acceptLogin_refused data :
  accepted data = false -> acceptLogin data = Throw (loginError (Fulfilled data)).
Proof.
  unfold accepted, acceptLogin, read, loginError. intros H.
  destruct (nullish data) eqn:Hd; [reflexivity|].
  cbn. destruct (truthy (member data "success")) eqn:Hs; cbn.
  - cbn in H. apply negb_false_iff in H. rewrite H. reflexivity.
  - reflexivity.
Qed.

Lemma alter_close_down k (so : gmap nat WebSocket) ws :
  alter close k so !! k = Some ws -> readyState ws = CLOSING \/ readyState ws = CLOSED.
Proof.
  rewrite lookup_alter_eq. destruct (so !! k); cbn; intros [= <-]. apply close_down.
Qed.

Lemma alter_readyState_down r k k0 (so : gmap nat WebSocket) ws :
  r = CLOSING \/ r = CLOSED ->
  (forall w, so !! k0 = Some w -> readyState w = CLOSING \/ readyState w = CLOSED) ->
  alter (fun w => {| url := url w; readyState := r |}) k so !! k0 = Some ws ->
  readyState ws = CLOSING \/ readyState ws = CLOSED.
Proof.
  intros Hr Hold. destruct (decide (k = k0)) as [->|Hne].
  - rewrite lookup_alter_eq. destruct (so !! k0); cbn; intros [= <-]. exact Hr.
  - rewrite lookup_alter_ne by done. apply Hold.
Qed.

Lemma alter_open_down k k0 u (so : gmap nat WebSocket) ws :
  so !! k = Some {| url := u; readyState := CONNECTING |} ->
  (forall w, so !! k0 = Some w -> readyState w = CLOSING \/ readyState w = CLOSED) ->
  alter (fun w => {| url := url w; readyState := OPEN |}) k so !! k0 = Some ws ->
  readyState ws = CLOSING \/ readyState ws = CLOSED.
Proof.
  intros Hk Hold. destruct (decide (k = k0)) as [->|Hne].
  - destruct (Hold _ Hk) as [?|?]; discriminate.
  - rewrite lookup_alter_ne by done. apply Hold.
Qed.

Lemma is_Some_insert_eq k x (so : gmap nat WebSocket) : is_Some (<[k := x]> so !! k).
Proof. rewrite lookup_insert_eq. eauto. Qed.

Lemma Inv_initial mac : Inv (initial_state mac).
Proof. split; cbn; try done. Qed.

(** Before [app.whenReady()] fires, only [AppReady] can happen. *)
Lemma enabled_initial mac e : enabled (initial_state mac) e = true -> e = AppReady.
Proof.
  destruct e; cbn; try discriminate; try reflexivity.
  all: try (rewrite lookup_empty; discriminate).
  all: try (intros H; apply bool_decide_eq_true in H; try (destruct H as [? H]; rewrite lookup_empty in H; discriminate)).
  all: try (set_solver).
  all: try (rewrite bool_decide_eq_true_2 by reflexivity; discriminate).
Qed.

Arguments sessionOf : simpl never.
Arguments wsUrl : simpl never.
Arguments js_toString : simpl never.
Arguments JSON_stringify : simpl never.
Arguments loginError : simpl never.
Arguments userDataToSend : simpl never.
Arguments toLowerCase : simpl never.
Arguments String.append : simpl never.
Arguments truthy : simpl never.

Ltac use_logged_out :=
  match goal with
  | I6 : isAuthenticated ?a = false -> _, H : isAuthenticated ?a = false |- _ =>
      destruct (I6 H) as (?&?&?&?)
  | I6 : false = false -> _ |- _ => destruct (I6 eq_refl) as (?&?&?&?)
  end.

Ltac endgame :=
  unfold channelDown in *; cbn; intros;
  try use_logged_out;
  repeat match goal with
  | |- _ /\ _ => split
  | |- is_Some (Some _) => eauto
  | |- forall _, _ => intro
  end;
  simplify_eq/=; try done; try congruence; eauto using unused_alter, unused_insert, unused_weaken, is_Some_alter, is_Some_insert_eq, alter_close_down;
  try match goal with |- @eq (gset _) _ _ => set_solver end.

Ltac close_inv := split; cbn; endgame.

Lemma Inv_Activate  s u s' effs :
  Inv s -> started s = true -> enabled s Activate = true ->
  handle Activate s = (u, s', effs) -> Inv s'.
Proof.
  intros I Hst He Hrun.
  destruct I as [I1 I2 I3 I4 I5 I6]. clear I1.
  destruct s as [a ws ax t mw aw so ti wi pe fr st da].
  cbn [started axiosInstance nextId sockets mainProcessWebSocket timers connectionMonitorInterval authState] in *.
  subst st.
  destruct (I2 eq_refl) as [ax0 ->]. clear I2.
  clear He. exec Hrun; close_inv.
Qed.

Lemma Inv_WindowAllClosed  s u s' effs :
  Inv s -> started s = true -> enabled s WindowAllClosed = true ->
  handle WindowAllClosed s = (u, s', effs) -> Inv s'.
Proof.
  intros I Hst He Hrun.
  destruct I as [I1 I2 I3 I4 I5 I6]. clear I1.
  destruct s as [a ws ax t mw aw so ti wi pe fr st da].
  cbn [started axiosInstance nextId sockets mainProcessWebSocket timers connectionMonitorInterval authState] in *.
  subst st.
  destruct (I2 eq_refl) as [ax0 ->]. clear I2.
  clear He. exec Hrun; close_inv.
Qed.

Lemma Inv_BeforeQuit  s u s' effs :
  Inv s -> started s = true -> enabled s BeforeQuit = true ->
  handle BeforeQuit s = (u, s', effs) -> Inv s'.
Proof.
  intros I Hst He Hrun.
  destruct I as [I1 I2 I3 I4 I5 I6]. clear I1.
  destruct s as [a ws ax t mw aw so ti wi pe fr st da].
  cbn [started axiosInstance nextId sockets mainProcessWebSocket timers connectionMonitorInterval authState] in *.
  subst st.
  destruct (I2 eq_refl) as [ax0 ->]. clear I2.
  clear He. exec Hrun; close_inv.
Qed.

Lemma Inv_WindowReadyToShow w s u s' effs :
  Inv s -> started s = true -> enabled s (WindowReadyToShow w) = true ->
  handle (WindowReadyToShow w) s = (u, s', effs) -> Inv s'.
Proof.
  intros I Hst He Hrun.
  destruct I as [I1 I2 I3 I4 I5 I6]. clear I1.
  destruct s as [a ws ax t mw aw so ti wi pe fr st da].
  cbn [started axiosInstance nextId sockets mainProcessWebSocket timers connectionMonitorInterval authState] in *.
  subst st.
  destruct (I2 eq_refl) as [ax0 ->]. clear I2.
  clear He. exec Hrun; close_inv.
Qed.

Lemma Inv_WindowClosed w s u s' effs :
  Inv s -> started s = true -> enabled s (WindowClosed w) = true ->
  handle (WindowClosed w) s = (u, s', effs) -> Inv s'.
Proof.
  intros I Hst He Hrun.
  destruct I as [I1 I2 I3 I4 I5 I6]. clear I1.
  destruct s as [a ws ax t mw aw so ti wi pe fr st da].
  cbn [started axiosInstance nextId sockets mainProcessWebSocket timers connectionMonitorInterval authState] in *.
  subst st.
  destruct (I2 eq_refl) as [ax0 ->]. clear I2.
  clear He. exec Hrun; close_inv.
Qed.

Lemma Inv_IpcAuthenticateUser m p s u s' effs :
  Inv s -> started s = true -> enabled s (IpcAuthenticateUser m p) = true ->
  handle (IpcAuthenticateUser m p) s = (u, s', effs) -> Inv s'.
Proof.
  intros I Hst He Hrun.
  destruct I as [I1 I2 I3 I4 I5 I6]. clear I1.
  destruct s as [a ws ax t mw aw so ti wi pe fr st da].
  cbn [started axiosInstance nextId sockets mainProcessWebSocket timers connectionMonitorInterval authState] in *.
  subst st.
  destruct (I2 eq_refl) as [ax0 ->]. clear I2.
  clear He. exec Hrun; close_inv.
Qed.

Lemma Inv_IpcGetUserData  s u s' effs :
  Inv s -> started s = true -> enabled s IpcGetUserData = true ->
  handle IpcGetUserData s = (u, s', effs) -> Inv s'.
Proof.
  intros I Hst He Hrun.
  destruct I as [I1 I2 I3 I4 I5 I6]. clear I1.
  destruct s as [a ws ax t mw aw so ti wi pe fr st da].
  cbn [started axiosInstance nextId sockets mainProcessWebSocket timers connectionMonitorInterval authState] in *.
  subst st.
  destruct (I2 eq_refl) as [ax0 ->]. clear I2.
  clear He. exec Hrun; close_inv.
Qed.

Lemma Inv_IpcGetAuthState  s u s' effs :
  Inv s -> started s = true -> enabled s IpcGetAuthState = true ->
  handle IpcGetAuthState s = (u, s', effs) -> Inv s'.
Proof.
  intros I Hst He Hrun.
  destruct I as [I1 I2 I3 I4 I5 I6]. clear I1.
  destruct s as [a ws ax t mw aw so ti wi pe fr st da].
  cbn [started axiosInstance nextId sockets mainProcessWebSocket timers connectionMonitorInterval authState] in *.
  subst st.
  destruct (I2 eq_refl) as [ax0 ->]. clear I2.
  clear He. exec Hrun; close_inv.
Qed.

Lemma Inv_IpcLogout  s u s' effs :
  Inv s -> started s = true -> enabled s IpcLogout = true ->
  handle IpcLogout s = (u, s', effs) -> Inv s'.
Proof.
  intros I Hst He Hrun.
  destruct I as [I1 I2 I3 I4 I5 I6]. clear I1.
  destruct s as [a ws ax t mw aw so ti wi pe fr st da].
  cbn [started axiosInstance nextId sockets mainProcessWebSocket timers connectionMonitorInterval authState] in *.
  subst st.
  destruct (I2 eq_refl) as [ax0 ->]. clear I2.
  clear He. exec Hrun; close_inv.
Qed.

Lemma Inv_IpcApiCall m p d s u s' effs :
  Inv s -> started s = true -> enabled s (IpcApiCall m p d) = true ->
  handle (IpcApiCall m p d) s = (u, s', effs) -> Inv s'.
Proof.
  intros I Hst He Hrun.
  destruct I as [I1 I2 I3 I4 I5 I6]. clear I1.
  destruct s as [a ws ax t mw aw so ti wi pe fr st da].
  cbn [started axiosInstance nextId sockets mainProcessWebSocket timers connectionMonitorInterval authState] in *.
  subst st.
  destruct (I2 eq_refl) as [ax0 ->]. clear I2.
  clear He. exec Hrun; close_inv.
Qed.

Lemma Inv_IpcWebsocketSend m s u s' effs :
  Inv s -> started s = true -> enabled s (IpcWebsocketSend m) = true ->
  handle (IpcWebsocketSend m) s = (u, s', effs) -> Inv s'.
Proof.
  intros I Hst He Hrun.
  destruct I as [I1 I2 I3 I4 I5 I6]. clear I1.
  destruct s as [a ws ax t mw aw so ti wi pe fr st da].
  cbn [started axiosInstance nextId sockets mainProcessWebSocket timers connectionMonitorInterval authState] in *.
  subst st.
  destruct (I2 eq_refl) as [ax0 ->]. clear I2.
  clear He. exec Hrun; close_inv.
Qed.

Lemma Inv_TimerTick i s u s' effs :
  Inv s -> started s = true -> enabled s (TimerTick i) = true ->
  handle (TimerTick i) s = (u, s', effs) -> Inv s'.
Proof.
  intros I Hst He Hrun.
  destruct I as [I1 I2 I3 I4 I5 I6]. clear I1.
  destruct s as [a ws ax t mw aw so ti wi pe fr st da].
  cbn [started axiosInstance nextId sockets mainProcessWebSocket timers connectionMonitorInterval authState] in *.
  subst st.
  destruct (I2 eq_refl) as [ax0 ->]. clear I2.
  clear He. exec Hrun. all: close_inv.
Qed.

Lemma Inv_WsOpen k s u s' effs :
  Inv s -> started s = true -> enabled s (WsOpen k) = true ->
  handle (WsOpen k) s = (u, s', effs) -> Inv s'.
Proof.
  intros I Hst He Hrun.
  destruct I as [I1 I2 I3 I4 I5 I6]. clear I1.
  destruct s as [a ws ax t mw aw so ti wi pe fr st da].
  cbn [started axiosInstance nextId sockets mainProcessWebSocket timers connectionMonitorInterval authState] in *.
  subst st.
  destruct (I2 eq_refl) as [ax0 ->]. clear I2.
  cbn in He. destruct (so !! k) as [[u0 r]|] eqn:Hk; [|discriminate].
  destruct r; try discriminate.
  exec Hrun. close_inv. eapply alter_open_down; eauto.
Qed.

Lemma Inv_WsClosed k s u s' effs :
  Inv s -> started s = true -> enabled s (WsClosed k) = true ->
  handle (WsClosed k) s = (u, s', effs) -> Inv s'.
Proof.
  intros I Hst He Hrun.
  destruct I as [I1 I2 I3 I4 I5 I6]. clear I1.
  destruct s as [a ws ax t mw aw so ti wi pe fr st da].
  cbn [started axiosInstance nextId sockets mainProcessWebSocket timers connectionMonitorInterval authState] in *.
  subst st.
  destruct (I2 eq_refl) as [ax0 ->]. clear I2.
  clear He. exec Hrun. close_inv. eapply alter_readyState_down; [| |eassumption]; eauto.
Qed.

Lemma Inv_WsError k m s u s' effs :
  Inv s -> started s = true -> enabled s (WsError k m) = true ->
  handle (WsError k m) s = (u, s', effs) -> Inv s'.
Proof.
  intros I Hst He Hrun.
  destruct I as [I1 I2 I3 I4 I5 I6]. clear I1.
  destruct s as [a ws ax t mw aw so ti wi pe fr st da].
  cbn [started axiosInstance nextId sockets mainProcessWebSocket timers connectionMonitorInterval authState] in *.
  subst st.
  destruct (I2 eq_refl) as [ax0 ->]. clear I2.
  clear He. exec Hrun. close_inv. eapply alter_readyState_down; [| |eassumption]; eauto.
Qed.

Lemma Inv_WsMessage k f s u s' effs :
  Inv s -> started s = true -> enabled s (WsMessage k f) = true ->
  handle (WsMessage k f) s = (u, s', effs) -> Inv s'.
Proof.
  intros I Hst He Hrun.
  destruct I as [I1 I2 I3 I4 I5 I6]. clear I1.
  destruct s as [a ws ax t mw aw so ti wi pe fr st da].
  cbn [started axiosInstance nextId sockets mainProcessWebSocket timers connectionMonitorInterval authState] in *.
  subst st.
  destruct (I2 eq_refl) as [ax0 ->]. clear I2.
  clear He. exec Hrun; close_inv.
Qed.
Lemma settle_accepted_Inv data s r s' effs :
  Inv s -> started s = true -> accepted data = true ->
  authenticateUser_settle (Fulfilled data) s = (r, s', effs) -> Inv s' /\ started s' = true.
Proof.
  intros I Hst Hacc H1.
  destruct I as [I1 I2 I3 I4 I5 I6]. clear I1.
  destruct s as [a ws ax t mw aw so ti wi pe fr st da].
  cbn [started axiosInstance nextId sockets mainProcessWebSocket timers connectionMonitorInterval authState] in *.
  subst st.
  destruct (I2 eq_refl) as [ax0 ->]. clear I2.
  unfold authenticateUser_settle in H1.
  rewrite (acceptLogin_accepted _ Hacc) in H1.
  exec H1.
  all: split; [close_inv|reflexivity].
Qed.

Lemma settle_refused o s :
  loginAccepted o = None ->
  authenticateUser_settle o s = (Throw (loginError o), s, []).
Proof.
  intros H. unfold authenticateUser_settle. destruct o as [data|m r]; cbn in H.
  - destruct (accepted data) eqn:Hacc; [discriminate|].
    rewrite (acceptLogin_refused _ Hacc). reflexivity.
  - reflexivity.
Qed.

Lemma authenticate_user_done_Inv r s u s' effs :
  Inv s -> started s = true ->
  authenticate_user_done r s = (u, s', effs) -> Inv s'.
Proof.
  intros I Hst H1.
  destruct I as [I1 I2 I3 I4 I5 I6]. clear I1.
  destruct s as [a ws ax t mw aw so ti wi pe fr st da].
  cbn [started axiosInstance nextId sockets mainProcessWebSocket timers connectionMonitorInterval authState] in *.
  subst st.
  destruct (I2 eq_refl) as [ax0 ->]. clear I2.
  destruct r; exec H1; close_inv.
Qed.

Lemma api_call_settle_Inv o s u s' effs :
  Inv s -> api_call_settle o s = (u, s', effs) -> Inv s'.
Proof.
  intros I H1. destruct o; exec H1; exact I.
Qed.

Lemma Inv_set_pending p s : Inv s -> started s = true -> Inv (set_pending p s).
Proof.
  intros I Hst.
  destruct I as [I1 I2 I3 I4 I5 I6]. clear I1.
  destruct s as [a ws ax t mw aw so ti wi pe fr st da].
  cbn [started axiosInstance nextId sockets mainProcessWebSocket timers connectionMonitorInterval authState] in *.
  subst st.
  destruct (I2 eq_refl) as [ax0 ->]. clear I2.
  close_inv.
Qed.

Lemma Inv_HttpSettled id o s s' effs :
  Inv s -> started s = true -> step s (HttpSettled id o) = Some (s', effs) -> Inv s'.
Proof.
  intros I Hst H. unfold step in H.
  destruct (enabled s (HttpSettled id o)); [|discriminate].
  destruct (handle (HttpSettled id o) s) as [[u s1] e1] eqn:Hrun. injection H as -> ->.
  unfold handle in Hrun.
  apply bind_inv in Hrun. destruct Hrun as (? & ? & ? & ? & H1 & H2 & ->). exec H1.
  apply bind_inv in H2. destruct H2 as (? & ? & ? & ? & H1 & H2 & ->). exec H1.
  pose proof (Inv_set_pending (delete id (pending s)) s I Hst) as I'.
  assert (Hst' : started (set_pending (delete id (pending s)) s) = true) by (destruct s; exact Hst).
  cbv beta in H2.
  destruct (pending s !! id) as [[]|].
  - apply bind_inv in H2. destruct H2 as (r & s2 & ? & ? & H1 & H2 & ->).
    destruct (loginAccepted o) as [au|] eqn:Hacc.
    + destruct o as [data|]; [|discriminate]. cbn in Hacc.
      destruct (accepted data) eqn:Ha; [|discriminate].
      destruct (settle_accepted_Inv _ _ _ _ _ I' Hst' Ha H1) as [I2 Hst2].
      eapply authenticate_user_done_Inv; eauto.
    + rewrite (settle_refused _ _ Hacc) in H1. injection H1 as <- <- <-.
      eapply authenticate_user_done_Inv; eauto.
  - eapply api_call_settle_Inv; eauto.
  - exec H2. exact I'.
  - exec H2. exact I'.
Qed.

(** Every step keeps the invariant. *)
Lemma Inv_step s e s' effs : Inv s -> step s e = Some (s', effs) -> Inv s'.
Proof.
  intros I H.
  destruct (started s) eqn:Hst.
  2: { unfold step in H. destruct (enabled s e) eqn:He; [|discriminate].
       pose proof (inv_before_ready s I Hst) as Hs. rewrite Hs in He, H.
       apply enabled_initial in He. subst e. cbn in H. inversion H; subst.
       split; cbn; endgame. }
  destruct e as [| | | |w|w|m p| | | |m ep d|msg|id o|i|k|k|k m|k f].
  13: { eapply Inv_HttpSettled; eassumption. }
  all: unfold step in H; destruct (enabled s _) eqn:He; [|discriminate].
  all: destruct (handle _ s) as [[u s1] e1] eqn:Hrun; injection H as -> ->.
  - cbn in He. rewrite Hst in He. discriminate.
  - eapply Inv_Activate; eassumption.
  - eapply Inv_WindowAllClosed; eassumption.
  - eapply Inv_BeforeQuit; eassumption.
  - eapply Inv_WindowReadyToShow; eassumption.
  - eapply Inv_WindowClosed; eassumption.
  - eapply Inv_IpcAuthenticateUser; eassumption.
  - eapply Inv_IpcGetUserData; eassumption.
  - eapply Inv_IpcGetAuthState; eassumption.
  - eapply Inv_IpcLogout; eassumption.
  - eapply Inv_IpcApiCall; eassumption.
  - eapply Inv_IpcWebsocketSend; eassumption.
  - eapply Inv_TimerTick; eassumption.
  - eapply Inv_WsOpen; eassumption.
  - eapply Inv_WsClosed; eassumption.
  - eapply Inv_WsError; eassumption.
  - eapply Inv_WsMessage; eassumption.
Qed.

Lemma reachable_via_Inv ok s : reachable_via ok s -> Inv s.
Proof.
  induction 1 as [mac|s e s' effects _ IH _ Hstep].
  - apply Inv_initial.
  - eapply Inv_step; eassumption.
Qed.

Lemma reachable_Inv s : reachable s -> Inv s.
Proof. apply reachable_via_Inv. Qed.

(** [logoutUser] in closed form. *)
Lemma logoutUser_eq s :
  logoutUser s =
  (tt,
   set_authState emptyAuthState
     (set_axiosInstance (match axiosInstance s with
                         | Some _ => Some {| Authorization := None |}
                         | None => None
                         end)
        (set_sockets (match mainProcessWebSocket s with
                      | Some k => alter close k (sockets s)
                      | None => sockets s
                      end)
           (set_connectionMonitorInterval None
              (set_timers (match connectionMonitorInterval s with
                           | Some i => timers s ∖ {[i]}
                           | None => timers s
                           end) s)))),
   match mainProcessWebSocket s with
   | Some k => [WsClose k]
   | None => []
   end).
Proof.
  destruct (logoutUser s) as [[[] s'] effs] eqn:H.
  destruct s as [a ws ax t mw aw so ti wi pe fr st da].
  exec H; reflexivity.
Qed.

Lemma close_close ws : close (close ws) = close ws.
Proof. destruct ws as [u []]; reflexivity. Qed.

Lemma alter_close_twice k (so : gmap nat WebSocket) :
  alter close k (alter close k so) = alter close k so.
Proof.
  apply map_eq. intros j. destruct (decide (k = j)) as [->|Hne].
  - rewrite !lookup_alter_eq. destruct (so !! j); cbn; [|reflexivity].
    rewrite close_close. reflexivity.
  - rewrite !lookup_alter_ne by done. reflexivity.
Qed.

Lemma alter_close_down_id k (so : gmap nat WebSocket) :
  (forall ws, so !! k = Some ws -> readyState ws = CLOSING \/ readyState ws = CLOSED) ->
  alter close k so = so.
Proof.
  intros H. apply map_eq. intros j. destruct (decide (k = j)) as [->|Hne].
  - rewrite lookup_alter_eq. destruct (so !! j) as [[u r]|] eqn:Hj; cbn; [|reflexivity].
    destruct (H _ eq_refl) as [Hr|Hr]; cbn in Hr; subst r; reflexivity.
  - rewrite lookup_alter_ne by done. reflexivity.
Qed.

(** C8: logoutUser is idempotent. From every state a second call in a row
    leaves the state the first call produced; and in a reachable logged-out
    state the call changes nothing: the session is empty, there is no interval
    and no header to clear, and the channel, if there is one, is closing or
    closed already, so the close it requests has no effect. *)
Theorem logoutUser_idempotent :
  (forall s, (logoutUser (logoutUser s).1.2).1.2 = (logoutUser s).1.2) /\
  (forall s, reachable s -> isAuthenticated (authState s) = false ->
     (logoutUser s).1.2 = s /\
     channelDown s /\
     (logoutUser s).2 = match mainProcessWebSocket s with
                        | Some k => [WsClose k]
                        | None => []
                        end).
Proof.
  split.
  - intros s. rewrite !logoutUser_eq. destruct s as [a ws ax t mw aw so ti wi pe fr st da].
    destruct ws, ax, t; flatten; try reflexivity; f_equal; apply alter_close_twice.
  - intros s Hr Hout. destruct (reachable_Inv s Hr) as [_ _ _ _ _ I6].
    destruct (I6 Hout) as (Ha & Ht & Hax & Hdown).
    rewrite logoutUser_eq. split; [|split; [exact Hdown|reflexivity]].
    destruct s as [a ws ax t mw aw so ti wi pe fr st da]. unfold channelDown in Hdown.
    cbn in Ha, Ht, Hax, Hdown. subst a t. flatten. f_equal.
    + destruct ax as [[h]|]; [|reflexivity]. specialize (Hax _ eq_refl). cbn in Hax.
      subst h. reflexivity.
    + destruct ws as [k|]; [|reflexivity]. apply alter_close_down_id. intros w Hw. eauto.
Qed.

Lemma run_via_reachable ok es :
  forall s s', reachable_via ok s -> run_via ok s es = Some s' -> reachable_via ok s'.
Proof.
  induction es as [|e es IH]; simpl; intros s s' Hr H.
  - injection H as <-. exact Hr.
  - destruct (ok s e) eqn:Hok; [|discriminate].
    destruct (step s e) as [[s1 e1]|] eqn:Hs; [|discriminate].
    eapply IH; [|exact H]. eapply reachable_step; eauto.
Qed.

(** Once a callback other than the first can run, the application is ready. *)
Lemma enabled_started s e :
  Inv s -> enabled s e = true -> e <> AppReady -> started s = true.
Proof.
  intros I He Hne. destruct (started s) eqn:Hst; [reflexivity|].
  rewrite (inv_before_ready s I Hst) in He. apply enabled_initial in He. contradiction.
Qed.

Lemma signInShown_reachable : reachable signInShown.
Proof.
  eapply (run_via_reachable _ [AppReady]); [apply (reachable_initial _ false)|].
  vm_compute. reflexivity.
Qed.

Lemma loggedIn_reachable : reachable loggedIn.
Proof.
  eapply (run_via_reachable _ [AppReady; credentials; HttpSettled 1 (Fulfilled goodResponse);
                               WindowClosed 0; WsOpen 2]);
    [apply (reachable_initial _ false)|].
  vm_compute. reflexivity.
Qed.

Lemma logoutUser_idempotent_witness :
  (logoutUser signInShown).1.2 = signInShown /\
  (logoutUser (logoutUser loggedIn).1.2).1.2 = (logoutUser loggedIn).1.2.
Proof.
  split.
  - apply (proj2 logoutUser_idempotent signInShown signInShown_reachable). reflexivity.
  - apply (proj1 logoutUser_idempotent).
Defined.

(** ** websocket-send *)

Lemma websocket_send_eq message s :
  websocket_send message s =
  (tt, s,
   match mainProcessWebSocket s with
   | Some k =>
       if channelOpen s
       then match stringify message with
            | Normal data => [WsTransmit k data; Respond SendSucceeded]
            | Throw m => [Respond (Failed (JStr m) None)]
            end
       else [notConnectedReply]
   | None => [notConnectedReply]
   end).
Proof.
  destruct (websocket_send message s) as [[[] s'] effs] eqn:H.
  exec H; reflexivity.
Qed.

(** C6, amended: a send without an open channel answers "WebSocket not
    connected", transmits nothing and changes nothing, and so does every send
    while the session is logged out. On an open channel the message is
    serialized: when JSON.stringify throws, the answer is a failure with the
    error's message and nothing is transmitted; otherwise the text is
    transmitted and the answer is success, with nothing recorded. The text of
    JSON data is its JSON: null, true and false as such, a string quoted and
    escaped, an array in brackets with null for what has no JSON, an object
    in braces without the properties that have none. *)
Theorem websocket_send_connected_or_refused message s :
  ((mainProcessWebSocket s = None \/
    exists k, mainProcessWebSocket s = Some k /\
              forall ws, sockets s !! k = Some ws -> readyState ws <> OPEN) ->
   websocket_send message s =
   (tt, s, [Respond (Failed (JStr "WebSocket not connected") None)])) /\
  (forall k ws,
     mainProcessWebSocket s = Some k -> sockets s !! k = Some ws -> readyState ws = OPEN ->
     websocket_send message s =
     (tt, s,
      match stringify message with
      | Normal data => [WsTransmit k data; Respond SendSucceeded]
      | Throw m => [Respond (Failed (JStr m) None)]
      end)) /\
  (reachable s -> isAuthenticated (authState s) = false ->
   websocket_send message s =
   (tt, s, [Respond (Failed (JStr "WebSocket not connected") None)])) /\
  (forall v, stringify (Data v) = Normal (JSON_stringify v)) /\
  JSON_stringify JUndefined = None /\
  JSON_stringify JNull = Some "null" /\
  (forall b, JSON_stringify (JBool b) = Some (if b then "true" else "false")) /\
  (forall t, JSON_stringify (JStr t) = Some (chr 34 +:+ json_quote_body t +:+ chr 34)) /\
  json_quote_body ("a" +:+ chr 34 +:+ chr 92 +:+ chr 10 +:+ "b")
    = "a" +:+ chr 92 +:+ chr 34 +:+ chr 92 +:+ chr 92 +:+ chr 92 +:+ "nb" /\
  (forall items,
     JSON_stringify (JArr items) =
     Some ("[" +:+ String.concat ","
                     (map (fun x => default "null" (JSON_stringify x)) items) +:+ "]")) /\
  (forall fields,
     JSON_stringify (JObj fields) =
     Some ("{" +:+ String.concat ","
                     (flat_map (fun '(k, x) => match JSON_stringify x with
                                               | Some t => [json_quote k +:+ ":" +:+ t]
                                               | None => []
                                               end) fields) +:+ "}")).
Proof.
  rewrite websocket_send_eq. unfold channelOpen, notConnectedReply.
  split; [|split; [|split]].
  - intros [->|(k & -> & Hk)]; [reflexivity|].
    destruct (sockets s !! k) as [[u r]|]; [|reflexivity].
    destruct r; try reflexivity. exfalso. eapply Hk; reflexivity.
  - intros k ws -> -> ->. reflexivity.
  - intros Hr Hout. destruct (reachable_Inv s Hr) as [_ _ _ _ _ I6].
    destruct (I6 Hout) as (_ & _ & _ & Hdown). unfold channelDown in Hdown.
    destruct (mainProcessWebSocket s) as [k|]; [|reflexivity].
    destruct (sockets s !! k) as [[u r]|] eqn:Hk; [|reflexivity].
    destruct (Hdown k _ eq_refl Hk) as [Hc|Hc]; cbn in Hc; subst r; reflexivity.
  - repeat split; reflexivity.
Qed.

Lemma websocket_send_connected_or_refused_witness :
  websocket_send (Data (JObj [("type", JStr "ping")])) signInShown =
    (tt, signInShown, [Respond (Failed (JStr "WebSocket not connected") None)]) /\
  websocket_send (Data (JObj [("type", JStr "ping")])) loggedIn =
    (tt, loggedIn,
     [WsTransmit 2 (Some ("{" +:+ chr 34 +:+ "type" +:+ chr 34 +:+ ":"
                              +:+ chr 34 +:+ "ping" +:+ chr 34 +:+ "}"));
      Respond SendSucceeded]).
Proof.
  split.
  - apply (websocket_send_connected_or_refused (Data (JObj [("type", JStr "ping")]))
             signInShown).
    + apply signInShown_reachable.
    + reflexivity.
  - apply (proj1 (proj2 (websocket_send_connected_or_refused
                           (Data (JObj [("type", JStr "ping")])) loggedIn))
             2 {| url := wsUrl (JStr "u1"); readyState := OPEN |});
      vm_compute; reflexivity.
Defined.

(** C6 as stated fails: with the channel open, a message JSON.stringify
    throws on (a BigInt) is answered with a failure and nothing is
    transmitted. *)
Lemma websocket_send_unserializable :
  exists s effs,
    step loggedIn
         (IpcWebsocketSend (Other (Throw "Do not know how to serialize a BigInt")))
      = Some (s, effs) /\
    channelOpen loggedIn = true /\
    effs = [Respond (Failed (JStr "Do not know how to serialize a BigInt") None)] /\
    List.filter isWsTransmit effs = [].
Proof. eexists _, _. vm_compute. repeat split. Qed.

(** ** api-call *)

Lemma api_call_unsupported_eq method endpoint data s ax :
  axiosInstance s = Some ax ->
  ~ In (toLowerCase method) ["get"; "post"; "put"; "delete"] ->
  api_call method endpoint data s =
  (tt, s, [Respond (Failed (JStr ("Unsupported HTTP method: " +:+ method)) None)]).
Proof.
  intros Hax Hno.
  assert (forall m, In m ["get"; "post"; "put"; "delete"] ->
                    String.eqb (toLowerCase method) m = false) as Hm.
  { intros m Hin. apply String.eqb_neq. intros E. apply Hno. rewrite E. exact Hin. }
  unfold api_call, mbind, proc_bind, reads. rewrite Hax. cbv beta iota zeta.
  rewrite !Hm by (simpl; auto 6). reflexivity.
Qed.

(** C10: an api-call whose method, lower-cased, is none of get, post, put and
    delete answers a failure that names the method as it was given, issues no
    request and changes nothing. *)
Theorem api_call_unsupported_method s method endpoint data s' effs :
  reachable s ->
  ~ In (toLowerCase method) ["get"; "post"; "put"; "delete"] ->
  step s (IpcApiCall method endpoint data) = Some (s', effs) ->
  s' = s /\
  effs = [Respond (Failed (JStr ("Unsupported HTTP method: " +:+ method)) None)] /\
  filter (fun e => isHttpRequest e) effs = [].
Proof.
  intros Hr Hno H. pose proof (reachable_Inv s Hr) as I.
  unfold step in H. destruct (enabled s _) eqn:He; [|discriminate].
  assert (started s = true) as Hst by (eapply enabled_started; eauto; discriminate).
  destruct (inv_ready s I Hst) as [ax Hax].
  cbn [handle] in H. rewrite (api_call_unsupported_eq _ _ _ _ _ Hax Hno) in H.
  injection H as <- <-. auto.
Qed.

Lemma api_call_unsupported_method_witness :
  exists s' effs,
    step signInShown (IpcApiCall "PATCH" "/api/communities" JNull) = Some (s', effs) /\
    s' = signInShown /\
    effs = [Respond (Failed (JStr "Unsupported HTTP method: PATCH") None)].
Proof.
  eexists _, _. split; [vm_compute; reflexivity|].
  destruct (api_call_unsupported_method signInShown "PATCH" "/api/communities" JNull
              signInShown [Respond (Failed (JStr "Unsupported HTTP method: PATCH") None)])
    as (H1 & H2 & _).
  - apply signInShown_reachable.
  - vm_compute. intuition discriminate.
  - vm_compute. reflexivity.
  - split; reflexivity.
Defined.

(** ** Who writes the session record *)

Lemma settle_accepted_authState data s r s' effs :
  accepted data = true ->
  authenticateUser_settle (Fulfilled data) s = (r, s', effs) ->
  authState s' = sessionOf data /\
  r = if refusesAddress (wsUrl (userId (sessionOf data)))
      then Throw fragmentError
      else Normal (sessionOf data).
Proof.
  intros Hacc H. unfold authenticateUser_settle in H.
  rewrite (acceptLogin_accepted _ Hacc) in H.
  exec H; flatten; cbn [userId sessionOf] in *;
    repeat match goal with E : refusesAddress _ = _ |- _ => rewrite E end; auto.
Qed.

Lemma authenticate_user_done_authState r s u s' effs :
  authenticate_user_done r s = (u, s', effs) -> authState s' = authState s.
Proof. intros H. destruct r; exec H; reflexivity. Qed.

(** Only a logout and an accepted login response assign [authState]. *)
Lemma handle_authState e s u s' effs :
  handle e s = (u, s', effs) ->
  authState s' = authState s \/
  authState s' = emptyAuthState \/
  exists id data,
    e = HttpSettled id (Fulfilled data) /\ pending s !! id = Some LoginRequest /\
    accepted data = true /\ authState s' = sessionOf data.
Proof.
  intros H.
  destruct e as [| | | |w|w|m p| | | |m ep d|msg|id o|i|k|k|k m|k f].
  13: { unfold handle in H.
        apply bind_inv in H. destruct H as (? & ? & ? & ? & H1 & H2 & ->). exec H1.
        apply bind_inv in H2. destruct H2 as (? & ? & ? & ? & H1 & H2 & ->). exec H1.
        cbv beta in H2.
        destruct (pending s !! id) as [[]|] eqn:Hp.
        - apply bind_inv in H2. destruct H2 as (r & s2 & ? & ? & H1 & H2 & ->).
          apply authenticate_user_done_authState in H2. rewrite H2.
          destruct (loginAccepted o) as [au|] eqn:Hacc.
          + destruct o as [data|]; [|discriminate]. cbn in Hacc.
            destruct (accepted data) eqn:Ha; [|discriminate].
            destruct (settle_accepted_authState _ _ _ _ _ Ha H1) as [E _].
            right. right. exists id, data. auto.
          + rewrite (settle_refused _ _ Hacc) in H1. injection H1 as <- <- <-.
            left. reflexivity.
        - destruct o; exec H2; left; reflexivity.
        - exec H2. left. reflexivity.
        - exec H2. left. reflexivity. }
  all: exec H; flatten; auto.
Qed.

Lemma step_authState s e s' effs :
  step s e = Some (s', effs) ->
  authState s' = authState s \/
  authState s' = emptyAuthState \/
  exists id data,
    e = HttpSettled id (Fulfilled data) /\ pending s !! id = Some LoginRequest /\
    accepted data = true /\ authState s' = sessionOf data.
Proof.
  unfold step. destruct (enabled s e); [|discriminate].
  destruct (handle e s) as [[u s1] e1] eqn:H. intros [= <- <-].
  eapply handle_authState; eassumption.
Qed.

(** C5, amended: as long as in every login response that reports success
    the value of [token || customToken] (the token when it is truthy, the
    customToken otherwise) and the user id are neither null nor undefined, an
    authenticated session record has both. *)
Theorem authenticated_has_token_and_userId s :
  reachable_via conforming s ->
  isAuthenticated (authState s) = true ->
  present (token (authState s)) /\ present (userId (authState s)).
Proof.
  induction 1 as [mac|s e s' effects _ IH Hok Hstep]; [discriminate|].
  intros Ha.
  destruct (step_authState _ _ _ _ Hstep) as [E|[E|(id & data & -> & Hp & Hacc & E)]].
  - rewrite E in *. auto.
  - rewrite E in Ha. discriminate.
  - rewrite E. unfold conforming in Hok. rewrite Hp, Hacc in Hok.
    apply andb_prop in Hok as [Ht Hu].
    apply negb_true_iff in Ht, Hu. split; assumption.
Qed.

Lemma loggedIn_conforming : reachable_via conforming loggedIn.
Proof.
  eapply (run_via_reachable _ [AppReady; credentials; HttpSettled 1 (Fulfilled goodResponse);
                               WindowClosed 0; WsOpen 2]);
    [apply (reachable_initial _ false)|].
  vm_compute. reflexivity.
Qed.

Lemma authenticated_has_token_and_userId_witness :
  token (authState loggedIn) = JStr "tok" /\
  present (token (authState loggedIn)) /\ present (userId (authState loggedIn)).
Proof.
  split; [vm_compute; reflexivity|].
  apply (authenticated_has_token_and_userId loggedIn).
  - apply loggedIn_conforming.
  - vm_compute. reflexivity.
Defined.

(** C5 as stated fails: a response that reports success without a token and
    with an empty user object leaves the session authenticated with neither a
    token nor a user id. *)
Lemma authenticated_without_token :
  exists s effs,
    run (initial_state false)
        [AppReady; credentials; HttpSettled 1 (Fulfilled bareResponse)] = Some (s, effs) /\
    isAuthenticated (authState s) = true /\
    token (authState s) = JUndefined /\
    userId (authState s) = JUndefined.
Proof. eexists _, _. vm_compute. repeat split. Qed.

(** ** get-user-data *)

Lemma truthy_present v : truthy v = true -> present v.
Proof. destruct v; cbn; intros; try reflexivity; discriminate. Qed.

(** C9, amended: null exactly when not authenticated; otherwise the snapshot,
    where the user name and the two group lists are defaulted and so never
    null, and the user id, e-mail address and token are the stored values as
    they are. *)
Theorem get_user_data_snapshot s :
  (get_user_data s = None <-> isAuthenticated (authState s) = false) /\
  (forall u, get_user_data s = Some u ->
     Snapshot.isAuthenticated u = true /\
     Snapshot.serviceInitialized u = true /\
     Snapshot.username u =
       (if truthy (username (authState s)) then username (authState s) else JStr "Unknown") /\
     present (Snapshot.username u) /\
     Snapshot.userId u = userId (authState s) /\
     Snapshot.email u = email (authState s) /\
     Snapshot.token u = token (authState s) /\
     Snapshot.ownedCommunities u =
       match userData (authState s) with
       | Some d => if truthy (UserData.ownedCommunities d)
                   then UserData.ownedCommunities d else JArr []
       | None => JArr []
       end /\
     Snapshot.memberCommunities u =
       match userData (authState s) with
       | Some d => if truthy (UserData.memberCommunities d)
                   then UserData.memberCommunities d else JArr []
       | None => JArr []
       end /\
     present (Snapshot.ownedCommunities u) /\
     present (Snapshot.memberCommunities u)).
Proof.
  unfold get_user_data. split.
  - destruct (isAuthenticated (authState s)); cbn; split; intros; congruence.
  - intros u. destruct (isAuthenticated (authState s)) eqn:Ha; cbn; [|discriminate].
    intros [= <-]. unfold userDataToSend, js_or, present. cbn.
    repeat split; try assumption.
    + destruct (truthy (username (authState s))) eqn:E;
        [apply truthy_present; exact E|reflexivity].
    + destruct (userData (authState s)) as [d|]; cbn; reflexivity.
    + destruct (userData (authState s)) as [d|]; cbn; reflexivity.
    + destruct (userData (authState s)) as [d|]; cbn; [|reflexivity].
      destruct (truthy (UserData.ownedCommunities d)) eqn:E;
        [apply truthy_present; exact E|reflexivity].
    + destruct (userData (authState s)) as [d|]; cbn; [|reflexivity].
      destruct (truthy (UserData.memberCommunities d)) eqn:E;
        [apply truthy_present; exact E|reflexivity].
Qed.

Lemma get_user_data_snapshot_witness :
  exists u, get_user_data loggedIn = Some u /\
            Snapshot.username u = JStr "ann" /\ Snapshot.email u = email (authState loggedIn).
Proof.
  eexists. split; [vm_compute; reflexivity|].
  split; [reflexivity|].
  apply (proj2 (get_user_data_snapshot loggedIn)). vm_compute. reflexivity.
Defined.

(** C9 as stated fails: after a login whose response had no e-mail address,
    the snapshot is authenticated and its e-mail address is undefined. *)
Lemma get_user_data_partly_undefined :
  exists s effs u,
    run (initial_state false)
        [AppReady; credentials; HttpSettled 1 (Fulfilled noEmailResponse)] = Some (s, effs) /\
    get_user_data s = Some u /\
    Snapshot.isAuthenticated u = true /\
    Snapshot.email u = JUndefined.
Proof. eexists _, _, _. vm_compute. repeat split. Qed.

Lemma step_enabled s e :
  enabled s e = true -> exists s' effs, step s e = Some (s', effs).
Proof.
  intros He. unfold step. rewrite He.
  destruct (handle e s) as [[u s'] effs]. eauto.
Qed.

(** ** The connection monitor *)




(** ** Logout *)

Lemma getAllWindows_set_sockets v s : getAllWindows (set_sockets v s) = getAllWindows s.
Proof. destruct s. reflexivity. Qed.

(** C3, amended: logout empties the session record, clears the interval (no
    tick can run afterwards), removes the default header and calls close on
    the channel, which is then closing or closed; it publishes nothing itself.
    The handle is kept, and the close event of a channel that was not yet
    closed is still delivered afterwards and publishes a status message. *)
Theorem logoutUser_stops_monitor_and_closes s u s' effs :
  reachable s ->
  logoutUser s = (u, s', effs) ->
  authState s' = emptyAuthState /\
  connectionMonitorInterval s' = None /\
  timers s' = ∅ /\
  (forall i, step s' (TimerTick i) = None) /\
  (forall ax, axiosInstance s' = Some ax -> Authorization ax = None) /\
  mainProcessWebSocket s' = mainProcessWebSocket s /\
  channelDown s' /\
  effs = match mainProcessWebSocket s with
         | Some k => [WsClose k]
         | None => []
         end /\
  (forall k ws,
     mainProcessWebSocket s = Some k -> sockets s !! k = Some ws -> readyState ws <> CLOSED ->
     exists s'',
       step s' (WsClosed k) =
       Some (s'', map (fun w => Send w (WebsocketStatus false)) (getAllWindows s'))).
Proof.
  intros Hr H. rewrite logoutUser_eq in H. injection H as _ <- <-.
  destruct (reachable_Inv s Hr) as [_ _ _ _ I5 _].
  assert (Ht : match connectionMonitorInterval s with
               | Some i => timers s ∖ {[i]}
               | None => timers s
               end = (∅ : gset nat)).
  { rewrite I5. destruct (connectionMonitorInterval s); set_solver. }
  destruct s as [a ws ax t mw aw so ti wi pe fr st da].
  cbn [connectionMonitorInterval timers mainProcessWebSocket sockets axiosInstance] in *.
  flatten. rewrite Ht. clear Ht I5.
  split; [reflexivity|]. split; [reflexivity|]. split; [reflexivity|].
  split. { intros i. unfold step. cbn [enabled timers].
          rewrite bool_decide_eq_false_2 by set_solver. reflexivity. }
  split. { intros ax' E. destruct ax; inversion E; reflexivity. }
  split; [reflexivity|].
  split. { unfold channelDown. cbn. intros k w -> Hw. eapply alter_close_down; eauto. }
  split; [reflexivity|].
  intros k w -> Hw Hnc. unfold step. cbn [enabled sockets].
  rewrite lookup_alter_eq, Hw. cbn.
  destruct w as [uw []]; cbn; try (exfalso; apply Hnc; reflexivity).
  all: eexists; unfold handle, setReadyState, broadcastToAllWindows, mbind, proc_bind, update,
         reads, emits; cbv beta iota; flatten; unfold getAllWindows; cbn [windows]; reflexivity.
Qed.

Lemma logoutUser_stops_monitor_and_closes_witness :
  exists s' s'' w,
    logoutUser loggedIn = (tt, s', [WsClose 2]) /\
    timers s' = ∅ /\
    step s' (WsClosed 2) = Some (s'', [Send w (WebsocketStatus false)]).
Proof.
  destruct (logoutUser loggedIn) as [[u s'] effs] eqn:E.
  destruct (logoutUser_stops_monitor_and_closes loggedIn u s' effs loggedIn_reachable E)
    as (_ & _ & Ht & _ & _ & _ & _ & He & Hclose).
  destruct (Hclose 2 {| url := wsUrl (JStr "u1"); readyState := OPEN |})
    as [s'' Hs'']; [vm_compute; reflexivity..|discriminate|].
  exists s', s'', 4. destruct u. rewrite He, Ht, Hs''.
  repeat split.
  apply (f_equal fst) in E. apply (f_equal snd) in E. cbn in E. subst s'.
  vm_compute. reflexivity.
Defined.

(** C3 as stated fails: after logout has returned, the close event of the
    channel publishes a status message to the window then alive. *)
Lemma status_published_after_logout :
  exists s e0 s' effs,
    run (initial_state false)
        [AppReady; credentials; HttpSettled 1 (Fulfilled goodResponse); WindowClosed 0;
         WsOpen 2; IpcLogout; WindowClosed 4] = Some (s, e0) /\
    authState s = emptyAuthState /\
    step s (WsClosed 2) = Some (s', effs) /\
    effs = [Send 5 (WebsocketStatus false)].
Proof. eexists _, _, _, _. vm_compute. repeat split. Qed.

(** ** A login response arrives *)

(** What the response to a pending login does to the session record. *)
Lemma login_settled_authState s id o s' effs :
  pending s !! id = Some LoginRequest ->
  step s (HttpSettled id o) = Some (s', effs) ->
  authState s' = match loginAccepted o with
                 | Some a => a
                 | None => authState s
                 end.
Proof.
  intros Hp H. unfold step in H. destruct (enabled s _); [|discriminate].
  destruct (handle (HttpSettled id o) s) as [[u s1] e1] eqn:Hrun. injection H as <- <-.
  unfold handle in Hrun.
  apply bind_inv in Hrun. destruct Hrun as (? & ? & ? & ? & H1 & H2 & ->). exec H1.
  apply bind_inv in H2. destruct H2 as (? & ? & ? & ? & H1 & H2 & ->). exec H1.
  cbv beta in H2. rewrite Hp in H2.
  apply bind_inv in H2. destruct H2 as (r & s2 & ? & ? & H1 & H2 & ->).
  apply authenticate_user_done_authState in H2. rewrite H2.
  destruct (loginAccepted o) as [au|] eqn:Hacc.
  - destruct o as [data|]; [|discriminate]. cbn in Hacc.
    destruct (accepted data) eqn:Ha; [|discriminate]. injection Hacc as <-.
    destruct (settle_accepted_authState _ _ _ _ _ Ha H1) as [E _]. exact E.
  - rewrite (settle_refused _ _ Hacc) in H1. injection H1 as <- <- <-.
    destruct s; reflexivity.
Qed.

(** A failing login in closed form. *)
Lemma login_refused_eq s id o :
  pending s !! id = Some LoginRequest -> loginAccepted o = None ->
  handle (HttpSettled id o) s =
  (tt, set_pending (delete id (pending s)) s, [Respond (Failed (JStr (loginError o)) None)]).
Proof.
  intros Hp Hacc.
  destruct (handle (HttpSettled id o) s) as [[[] s1] e1] eqn:Hrun.
  unfold handle in Hrun.
  apply bind_inv in Hrun. destruct Hrun as (? & ? & ? & ? & H1 & H2 & ->). exec H1.
  apply bind_inv in H2. destruct H2 as (? & ? & ? & ? & H1 & H2 & ->). exec H1.
  cbv beta in H2. rewrite Hp in H2.
  apply bind_inv in H2. destruct H2 as (r & s2 & ? & ? & H1 & H2 & ->).
  rewrite (settle_refused _ _ Hacc) in H1. injection H1 as <- <- <-.
  exec H2. reflexivity.
Qed.

Lemma logout_keeps_pending s u s' effs :
  logout s = (u, s', effs) -> pending s' = pending s /\ authState s' = emptyAuthState.
Proof.
  intros H. unfold logout in H.
  apply bind_inv in H. destruct H as (? & s1 & ? & ? & H1 & H2 & ->).
  rewrite logoutUser_eq in H1. injection H1 as _ <- _.
  exec H2; flatten; destruct s; split; reflexivity.
Qed.

(** C1, amended: a logout that completes while a login is pending leaves the
    session empty and the login pending; when the response arrives it is
    applied as for any login, so an accepted response makes the session
    authenticated again, and only a refused one leaves it empty. *)
Theorem stale_login_is_applied s0 id s e0 o :
  pending s0 !! id = Some LoginRequest ->
  step s0 IpcLogout = Some (s, e0) ->
  authState s = emptyAuthState /\
  pending s !! id = Some LoginRequest /\
  exists s' effs,
    step s (HttpSettled id o) = Some (s', effs) /\
    (forall data, o = Fulfilled data -> accepted data = true ->
       authState s' = sessionOf data /\ isAuthenticated (authState s') = true) /\
    (loginAccepted o = None -> authState s' = emptyAuthState).
Proof.
  intros Hp H. unfold step in H. destruct (enabled s0 _); [|discriminate].
  destruct (handle IpcLogout s0) as [[u s1] e1] eqn:Hrun. injection H as <- <-.
  cbn [handle] in Hrun. apply logout_keeps_pending in Hrun as [Hpe Ha].
  split; [exact Ha|]. split; [rewrite Hpe; exact Hp|].
  destruct (step_enabled s1 (HttpSettled id o)) as (s' & effs & Hs).
  { cbn [enabled]. rewrite Hpe, Hp. reflexivity. }
  exists s', effs. split; [exact Hs|].
  rewrite <- Hpe in Hp. pose proof (login_settled_authState _ _ _ _ _ Hp Hs) as E.
  split.
  - intros data -> Hacc. cbn in E. rewrite Hacc in E. rewrite E. split; reflexivity.
  - intros Hno. rewrite Hno in E. rewrite E. exact Ha.
Qed.

Lemma stale_login_is_applied_witness :
  exists s s' e0 effs,
    step loginPending IpcLogout = Some (s, e0) /\
    step s (HttpSettled 1 (Fulfilled goodResponse)) = Some (s', effs) /\
    authState s = emptyAuthState /\
    authState s' = sessionOf goodResponse.
Proof.
  destruct (step loginPending IpcLogout) as [[s e0]|] eqn:E;
    [|exfalso; vm_compute in E; discriminate].
  assert (Hp : pending loginPending !! 1 = Some LoginRequest) by (vm_compute; reflexivity).
  destruct (stale_login_is_applied loginPending 1 s e0 (Fulfilled goodResponse) Hp E)
    as (Ha & _ & s' & effs & Hs & Hyes & _).
  exists s, s', e0, effs.
  split; [reflexivity|]. split; [exact Hs|]. split; [exact Ha|].
  apply (Hyes goodResponse eq_refl). vm_compute. reflexivity.
Defined.

(** C1 as stated fails: login, logout, then the login's response; the session
    ends authenticated. *)
Lemma stale_login_resurrects_session :
  exists s effs,
    run (initial_state false)
        [AppReady; credentials; IpcLogout; HttpSettled 1 (Fulfilled goodResponse)]
      = Some (s, effs) /\
    authState s <> emptyAuthState /\
    isAuthenticated (authState s) = true /\
    token (authState s) = JStr "tok".
Proof. eexists _, _. vm_compute. repeat split. discriminate. Qed.

(** ** A successful login *)

Lemma ready_to_show_main s w b m :
  windows s !! w = Some b -> shown b = false -> kind b = MainWindow -> mainWindow s = Some m ->
  step s (WindowReadyToShow w) =
  Some (set_windows (alter (fun b => {| kind := kind b; shown := true |}) w (windows s)) s,
        [Send m (UserDataMsg (userDataToSend (authState s)))]).
Proof.
  intros Hw Hs Hk Hm. unfold step. cbn [enabled]. rewrite Hw, Hs. cbn [negb].
  destruct (handle (WindowReadyToShow w) s) as [[u s1] e1] eqn:H.
  unfold handle in H.
  apply bind_inv in H. destruct H as (? & ? & ? & ? & H1 & H2 & ->). exec H1.
  apply bind_inv in H2. destruct H2 as (? & ? & ? & ? & H1 & H2 & ->). exec H1.
  cbv beta in H2. rewrite Hw in H2. cbn [fmap option_fmap option_map] in H2. rewrite Hk in H2.
  apply bind_inv in H2. destruct H2 as (? & ? & ? & ? & H1 & H2 & ->). exec H1.
  apply bind_inv in H2. destruct H2 as (? & ? & ? & ? & H1 & H2 & ->). exec H1.
  cbv beta in H2.
  replace (mainWindow (set_windows (alter (fun b0 => {| kind := kind b0; shown := true |}) w (windows s)) s))
    with (Some m) in H2 by (destruct s; symmetry; exact Hm).
  exec H2. destruct s; reflexivity.
Qed.

Lemma settle_accepted_effects data s r s' effs :
  is_Some (axiosInstance s) ->
  sockets s !! nextId s = None ->
  timers s = match connectionMonitorInterval s with
             | Some i => {[i]}
             | None => ∅
             end ->
  accepted data = true ->
  refusesAddress (wsUrl (userId (sessionOf data))) = false ->
  authenticateUser_settle (Fulfilled data) s = (r, s', effs) ->
  r = Normal (sessionOf data) /\
  authState s' = sessionOf data /\
  axiosInstance s' =
    Some {| Authorization := Some ("Bearer " +:+ js_toString (token (sessionOf data))) |} /\
  mainProcessWebSocket s' = Some (nextId s) /\
  sockets s' !! nextId s =
    Some {| url := wsUrl (userId (sessionOf data)); readyState := CONNECTING |} /\
  List.filter isWsConnect effs = [WsConnect (nextId s) (wsUrl (userId (sessionOf data)))] /\
  (forall k0, mainProcessWebSocket s = Some k0 -> In (WsClose k0) effs) /\
  (exists i, connectionMonitorInterval s' = Some i /\ timers s' = {[i]}) /\
  List.filter isUserData effs =
    match mainWindow s with
    | Some m => [Send m (UserDataMsg (userDataToSend (sessionOf data)))]
    | None => []
    end /\
  List.filter isRespond effs = [].
Proof.
  intros I2 Hfr I5 Hacc Hno H1.
  destruct s as [a ws ax t mw aw so ti wi pe fr st da].
  cbn [started axiosInstance nextId sockets mainProcessWebSocket timers connectionMonitorInterval
       authState mainWindow] in *.
  destruct I2 as [ax0 ->].
  unfold authenticateUser_settle in H1.
  rewrite (acceptLogin_accepted _ Hacc) in H1.
  exec H1.
  all: try (cbn [userId sessionOf] in *; congruence).
  all: split; [reflexivity|]; split; [reflexivity|]; split; [reflexivity|].
  all: split; [reflexivity|]; split; [apply lookup_insert_eq|]; split; [reflexivity|].
  all: split; [intros k0 Hk0; simplify_eq; simpl; auto|].
  all: split; [eexists; split; [reflexivity|]; flatten; subst ti; set_solver|].
  all: split; reflexivity.
Qed.

(** The login whose channel cannot be constructed, in closed form. *)
Lemma settle_refusing_eq data s :
  accepted data = true ->
  refusesAddress (wsUrl (userId (sessionOf data))) = true ->
  authenticateUser_settle (Fulfilled data) s =
  (Throw fragmentError,
   set_sockets (match mainProcessWebSocket s with
                | Some k => alter close k (sockets s)
                | None => sockets s
                end)
     (set_axiosInstance
        (match axiosInstance s with
         | Some _ =>
             Some {| Authorization := Some ("Bearer " +:+ js_toString (token (sessionOf data))) |}
         | None => None
         end)
        (set_authState (sessionOf data) s)),
   match mainProcessWebSocket s with
   | Some k => [WsClose k]
   | None => []
   end).
Proof.
  intros Hacc Hyes.
  destruct (authenticateUser_settle (Fulfilled data) s) as [[r s1] e1] eqn:H1.
  destruct s as [a ws ax t mw aw so ti wi pe fr st da].
  unfold authenticateUser_settle in H1.
  rewrite (acceptLogin_accepted _ Hacc) in H1.
  exec H1.
  all: try (cbn [userId sessionOf] in *; congruence).
  all: reflexivity.
Qed.

Lemma done_normal_effects a s u s' effs :
  authenticate_user_done (Normal a) s = (u, s', effs) ->
  authState s' = authState s /\
  axiosInstance s' = axiosInstance s /\
  mainProcessWebSocket s' = mainProcessWebSocket s /\
  sockets s' = sockets s /\
  connectionMonitorInterval s' = connectionMonitorInterval s /\
  timers s' = timers s /\
  List.filter isWsConnect effs = [] /\
  List.filter isUserData effs = [] /\
  List.filter isRespond effs = [Respond (LoginSucceeded a)] /\
  exists w,
    mainWindow s' = Some w /\
    In (WindowOpen w MainWindow) effs /\
    windows s' !! w = Some {| kind := MainWindow; shown := false |}.
Proof.
  intros H. destruct s as [a0 ws ax t mw aw so ti wi pe fr st da].
  exec H.
  all: repeat (split; [reflexivity|]).
  all: eexists; split; [reflexivity|]; split; [simpl; auto 10|]; apply lookup_insert_eq.
Qed.

Lemma settle_accepted_replies data s r s' effs :
  accepted data = true ->
  refusesAddress (wsUrl (userId (sessionOf data))) = false ->
  authenticateUser_settle (Fulfilled data) s = (r, s', effs) ->
  List.filter isRespond effs = [].
Proof.
  intros Hacc Hno H1.
  destruct s as [a ws ax t mw aw so ti wi pe fr st da].
  unfold authenticateUser_settle in H1.
  rewrite (acceptLogin_accepted _ Hacc) in H1.
  exec H1.
  all: try (cbn [userId sessionOf] in *; congruence).
  all: reflexivity.
Qed.

(** A login whose response is accepted, as far as the handler goes. *)
Lemma login_accepted_inv s id data s' effs :
  pending s !! id = Some LoginRequest ->
  step s (HttpSettled id (Fulfilled data)) = Some (s', effs) ->
  exists r s2 e2 u e3,
    authenticateUser_settle (Fulfilled data) (set_pending (delete id (pending s)) s)
      = (r, s2, e2) /\
    authenticate_user_done r s2 = (u, s', e3) /\
    effs = e2 ++ e3.
Proof.
  intros Hp H. unfold step in H. destruct (enabled s _); [|discriminate].
  destruct (handle _ s) as [[u s1] e1] eqn:Hrun. injection H as <- <-.
  unfold handle in Hrun.
  apply bind_inv in Hrun. destruct Hrun as (? & ? & ? & ? & H1 & H2 & ->). exec H1.
  apply bind_inv in H2. destruct H2 as (? & ? & ? & ? & H1 & H2 & ->). exec H1.
  cbv beta in H2. rewrite Hp in H2.
  apply bind_inv in H2. destruct H2 as (r & s2 & e2 & e3 & H1 & H2 & ->).
  exists r, s2, e2, u, e3. auto.
Qed.

Lemma done_throw_eq m s :
  authenticate_user_done (Throw m) s = (tt, s, [Respond (Failed (JStr m) None)]).
Proof. reflexivity. Qed.

(** What an accepted login is answered. *)
Lemma login_accepted_reply s id data s' effs :
  pending s !! id = Some LoginRequest ->
  accepted data = true ->
  step s (HttpSettled id (Fulfilled data)) = Some (s', effs) ->
  List.filter isRespond effs =
    [Respond (if refusesAddress (wsUrl (userId (sessionOf data)))
              then Failed (JStr fragmentError) None
              else LoginSucceeded (sessionOf data))].
Proof.
  intros Hp Ha H.
  destruct (login_accepted_inv _ _ _ _ _ Hp H) as (r & s2 & e2 & u & e3 & H1 & H2 & ->).
  destruct (refusesAddress (wsUrl (userId (sessionOf data)))) eqn:Href.
  - rewrite (settle_refusing_eq _ _ Ha Href) in H1. injection H1 as <- <- <-.
    rewrite done_throw_eq in H2. injection H2 as _ _ <-.
    rewrite List.filter_app. destruct (mainProcessWebSocket _); reflexivity.
  - destruct (settle_accepted_authState _ _ _ _ _ Ha H1) as [_ ->]. rewrite Href in *.
    apply done_normal_effects in H2.
    destruct H2 as (_ & _ & _ & _ & _ & _ & _ & _ & Ere & _).
    rewrite List.filter_app, Ere.
    rewrite (settle_accepted_replies _ _ _ _ _ Ha Href H1). reflexivity.
Qed.

(** C4, amended: an accepted login response replaces the session record and
    sets the Authorization header. If the socket's constructor takes the
    address built from the returned user id, exactly one channel is opened,
    keyed by that id, on a fresh socket (close having been called on the
    handle it replaces), and the interval is started, which is then the only
    one; the user-data message goes at once to the main window that exists at
    that moment, and to none when there is none, as at a first login; a new
    main window is opened in either case and receives the snapshot when it is
    ready to show; the answer is success. If the constructor refuses the
    address (the user id contains '#'), close has been called on the previous
    handle and nothing else happens: no channel, no interval, no window, no
    message, and the answer is a failure. *)
Theorem login_success_effects s id data s' effs :
  reachable s ->
  pending s !! id = Some LoginRequest ->
  accepted data = true ->
  step s (HttpSettled id (Fulfilled data)) = Some (s', effs) ->
  authState s' = sessionOf data /\
  axiosInstance s' =
    Some {| Authorization := Some ("Bearer " +:+ js_toString (token (sessionOf data))) |} /\
  (refusesAddress (wsUrl (userId (sessionOf data))) = false ->
   (exists k,
      sockets s !! k = None /\
      mainProcessWebSocket s' = Some k /\
      sockets s' !! k =
        Some {| url := wsUrl (userId (sessionOf data)); readyState := CONNECTING |} /\
      List.filter isWsConnect effs = [WsConnect k (wsUrl (userId (sessionOf data)))] /\
      (forall k0, mainProcessWebSocket s = Some k0 -> In (WsClose k0) effs)) /\
   (exists i, connectionMonitorInterval s' = Some i /\ timers s' = {[i]}) /\
   List.filter isUserData effs =
     match mainWindow s with
     | Some m => [Send m (UserDataMsg (userDataToSend (sessionOf data)))]
     | None => []
     end /\
   (exists w s'',
      mainWindow s' = Some w /\
      In (WindowOpen w MainWindow) effs /\
      step s' (WindowReadyToShow w) =
        Some (s'', [Send w (UserDataMsg (userDataToSend (sessionOf data)))])) /\
   List.filter isRespond effs = [Respond (LoginSucceeded (sessionOf data))]) /\
  (refusesAddress (wsUrl (userId (sessionOf data))) = true ->
   mainProcessWebSocket s' = mainProcessWebSocket s /\
   sockets s' = match mainProcessWebSocket s with
                | Some k => alter close k (sockets s)
                | None => sockets s
                end /\
   connectionMonitorInterval s' = connectionMonitorInterval s /\
   timers s' = timers s /\
   windows s' = windows s /\
   mainWindow s' = mainWindow s /\
   authWindow s' = authWindow s /\
   effs = match mainProcessWebSocket s with
          | Some k => [WsClose k]
          | None => []
          end ++ [Respond (Failed (JStr fragmentError) None)]).
Proof.
  intros Hr Hp Hacc H. pose proof (reachable_Inv s Hr) as I.
  assert (started s = true) as Hst.
  { unfold step in H. destruct (enabled s _) eqn:He; [|discriminate].
    eapply enabled_started; eauto; discriminate. }
  destruct (inv_ready s I Hst) as [ax0 Hax0].
  destruct (login_accepted_inv _ _ _ _ _ Hp H) as (r & s2 & e2 & u & e3 & H1 & H2 & ->).
  destruct (refusesAddress (wsUrl (userId (sessionOf data)))) eqn:Href.
  - rewrite (settle_refusing_eq _ _ Hacc Href) in H1. injection H1 as <- <- <-.
    rewrite done_throw_eq in H2. injection H2 as _ <- <-.
    destruct s as [a ws ax t mw aw so ti wi pe fr st da]. cbn in Hax0. subst ax.
    flatten. split; [reflexivity|]. split; [reflexivity|].
    split; [discriminate|]. intros _. repeat split; reflexivity.
  - destruct I as [_ I2 I3 _ I5 _].
    apply settle_accepted_effects in H1;
      [| destruct s; cbn in *; auto using le_n ..|exact Hacc|exact Href].
    destruct H1 as (-> & Ha & Hax & Hws & Hso & Hc & Hcl & Hti & Hud & Hre).
    apply done_normal_effects in H2.
    destruct H2 as (Ea & Eax & Ews & Eso & Et & Eti & Ec & Eud & Ere & w & Hw & Hin & Hwi).
    rewrite !List.filter_app, Hc, Hud, Hre, Ec, Eud, Ere, !app_nil_r.
    rewrite Ea, Eax, Ews, Eso, Et, Eti.
    replace (nextId (set_pending (delete id (pending s)) s)) with (nextId s) in *
      by (destruct s; reflexivity).
    replace (sockets (set_pending (delete id (pending s)) s)) with (sockets s) in *
      by (destruct s; reflexivity).
    replace (mainWindow (set_pending (delete id (pending s)) s)) with (mainWindow s) in *
      by (destruct s; reflexivity).
    replace (mainProcessWebSocket (set_pending (delete id (pending s)) s))
      with (mainProcessWebSocket s) in * by (destruct s; reflexivity).
    split; [exact Ha|]. split; [exact Hax|].
    split; [|discriminate]. intros _.
    split.
    { exists (nextId s). split; [apply I3; apply le_n|]. split; [exact Hws|].
      split; [exact Hso|]. split; [reflexivity|].
      intros k0 Hk0. apply in_or_app. left. auto. }
    split; [exact Hti|]. split; [reflexivity|].
    split; [|reflexivity].
    exists w. eexists. split; [exact Hw|]. split; [apply in_or_app; right; exact Hin|].
    rewrite (ready_to_show_main _ w _ w Hwi eq_refl eq_refl Hw). rewrite Ea, Ha. reflexivity.
Qed.

Lemma login_success_effects_witness :
  exists s' effs,
    step loginPending (HttpSettled 1 (Fulfilled goodResponse)) = Some (s', effs) /\
    authState s' = sessionOf goodResponse /\
    axiosInstance s' = Some {| Authorization := Some "Bearer tok" |} /\
    List.filter isRespond effs = [Respond (LoginSucceeded (sessionOf goodResponse))].
Proof.
  destruct (step loginPending (HttpSettled 1 (Fulfilled goodResponse)))
    as [[s' effs]|] eqn:E; [|exfalso; vm_compute in E; discriminate].
  destruct (login_success_effects loginPending 1 goodResponse s' effs)
    as (Ha & Hx & Hyes & _).
  - eapply (run_via_reachable _ [AppReady; credentials]); [apply (reachable_initial _ false)|].
    vm_compute. reflexivity.
  - vm_compute. reflexivity.
  - vm_compute. reflexivity.
  - exact E.
  - destruct Hyes as (_ & _ & _ & _ & Hre); [vm_compute; reflexivity|].
    exists s', effs. split; [reflexivity|]. split; [exact Ha|].
    split; [rewrite Hx; reflexivity|exact Hre].
Defined.

(** C4 as stated fails: the first login publishes no user-data message (there
    is no main window yet); a response that reports success without a user
    object replaces nothing; and a response that reports success for a user
    id with '#' in it opens no channel. *)
Lemma login_success_publishes_nothing :
  (exists s effs,
     step loginPending (HttpSettled 1 (Fulfilled goodResponse)) = Some (s, effs) /\
     isAuthenticated (authState s) = true /\
     List.filter isSend effs = []) /\
  (exists s effs,
     step loginPending (HttpSettled 1 (Fulfilled userlessResponse)) = Some (s, effs) /\
     truthy (member userlessResponse "success") = true /\
     authState s = emptyAuthState /\
     List.filter isWsConnect effs = []) /\
  (exists s effs,
     step loginPending (HttpSettled 1 (Fulfilled fragmentResponse)) = Some (s, effs) /\
     truthy (member fragmentResponse "success") = true /\
     List.filter isWsConnect effs = [] /\
     connectionMonitorInterval s = None /\
     effs = [Respond (Failed (JStr "The URL contains a fragment identifier") None)]).
Proof. repeat split; eexists _, _; vm_compute; repeat split. Qed.

(** ** A failing login *)

(** C2, amended: what a login is answered is decided by its response. A
    login fails in one of two ways. Before the session is written: the
    request is rejected, the response reports no success, or reading it
    throws; then the session record, and everything else but the list of
    pending requests, is as it was. After the session is written: the
    response is accepted but the socket's constructor refuses the address
    built from the user id; then the session record and the header are the
    new ones, close has been called on the previous channel, and nothing else
    is changed or opened. In both the answer is a failure whose message is
    the thrown error's message as it is: the rejection's message, the
    response's message field with the default "Login failed", or the
    constructor's. The table of failure codes belongs to the web site's
    sign-in form, which shows its text and keeps its own state. *)
Theorem login_failure_keeps_session s id o s' effs :
  pending s !! id = Some LoginRequest ->
  step s (HttpSettled id o) = Some (s', effs) ->
  List.filter isRespond effs =
    [Respond match loginAccepted o with
             | None => Failed (JStr (loginError o)) None
             | Some a =>
                 if refusesAddress (wsUrl (userId a))
                 then Failed (JStr fragmentError) None
                 else LoginSucceeded a
             end] /\
  (loginAccepted o = None ->
   s' = set_pending (delete id (pending s)) s /\
   authState s' = authState s /\
   effs = [Respond (Failed (JStr (loginError o)) None)]) /\
  (forall a,
     loginAccepted o = Some a -> refusesAddress (wsUrl (userId a)) = true ->
     s' = set_sockets (match mainProcessWebSocket s with
                       | Some k => alter close k (sockets s)
                       | None => sockets s
                       end)
            (set_axiosInstance
               (match axiosInstance s with
                | Some _ =>
                    Some {| Authorization := Some ("Bearer " +:+ js_toString (token a)) |}
                | None => None
                end)
               (set_authState a (set_pending (delete id (pending s)) s))) /\
     authState s' = a /\
     isAuthenticated (authState s') = true /\
     effs = match mainProcessWebSocket s with
            | Some k => [WsClose k]
            | None => []
            end ++ [Respond (Failed (JStr fragmentError) None)]) /\
  (forall m r, o = Rejected m r -> loginError o = m) /\
  (forall data,
     o = Fulfilled data -> nullish data = false -> truthy (member data "success") = false ->
     loginError o = js_toString (js_or (member data "message") (JStr "Login failed"))) /\
  (forall error h,
     HomaraAuth.currentUser (HomaraAuth.handleLogin_rejected error h) = HomaraAuth.currentUser h /\
     HomaraAuth.isAuthenticated (HomaraAuth.handleLogin_rejected error h)
       = HomaraAuth.isAuthenticated h /\
     HomaraAuth.loginError (HomaraAuth.handleLogin_rejected error h)
       = HomaraAuth.getFirebaseErrorMessage error) /\
  (forall m,
     HomaraAuth.getFirebaseErrorMessage
       {| HomaraAuth.code := Some "auth/wrong-password"; HomaraAuth.message := m |}
     = "Incorrect password").
Proof.
  intros Hp H.
  assert (loginAccepted o = None ->
          s' = set_pending (delete id (pending s)) s /\
          effs = [Respond (Failed (JStr (loginError o)) None)]) as Hnone.
  { intros Hacc. unfold step in H. destruct (enabled s _); [|discriminate].
    rewrite (login_refused_eq _ _ _ Hp Hacc) in H. injection H as <- <-. auto. }
  assert (forall a, loginAccepted o = Some a ->
          exists data, o = Fulfilled data /\ accepted data = true /\ a = sessionOf data) as Hsome.
  { intros a Ha. destruct o as [data|]; [|discriminate]. cbn in Ha.
    destruct (accepted data) eqn:E; [|discriminate]. injection Ha as <-. eauto. }
  split; [|split; [|split]].
  - destruct (loginAccepted o) as [a|] eqn:Hacc.
    + destruct (Hsome a eq_refl) as (data & -> & Ha & ->).
      exact (login_accepted_reply _ _ _ _ _ Hp Ha H).
    + destruct (Hnone eq_refl) as [_ ->]. reflexivity.
  - intros Hacc. destruct (Hnone Hacc) as [-> ->].
    split; [reflexivity|]. split; [destruct s; reflexivity|reflexivity].
  - intros a Hacc Href. destruct (Hsome a Hacc) as (data & -> & Ha & ->).
    destruct (login_accepted_inv _ _ _ _ _ Hp H) as (r & s2 & e2 & u & e3 & H1 & H2 & ->).
    rewrite (settle_refusing_eq _ _ Ha Href) in H1. injection H1 as <- <- <-.
    rewrite done_throw_eq in H2. injection H2 as _ <- <-.
    destruct s as [a ws ax t mw aw so ti wi pe fr st da]. repeat split; reflexivity.
  - split; [intros m r ->; reflexivity|].
    split.
    { intros data -> Hn Hs. unfold loginError. rewrite Hn, Hs. reflexivity. }
    split; [intros error h; repeat split|].
    intros m. reflexivity.
Qed.

Lemma login_failure_keeps_session_witness :
  exists s' effs,
    step loginPending (HttpSettled 1 (Fulfilled wrongPasswordResponse)) = Some (s', effs) /\
    authState s' = authState loginPending /\
    effs = [Respond (Failed (JStr (loginError (Fulfilled wrongPasswordResponse))) None)].
Proof.
  destruct (step loginPending (HttpSettled 1 (Fulfilled wrongPasswordResponse)))
    as [[s' effs]|] eqn:E; [|exfalso; vm_compute in E; discriminate].
  destruct (login_failure_keeps_session loginPending 1 (Fulfilled wrongPasswordResponse) s' effs)
    as (_ & H & _); [vm_compute; reflexivity|exact E|].
  destruct H as (_ & Ha & He); [vm_compute; reflexivity|].
  exists s', effs. auto.
Defined.

(** C2 as stated fails: the remote rejects the credentials with the code
    auth/wrong-password, and the failure carries that text, not the table's
    "Incorrect password"; and a login that fails because the channel cannot
    be constructed leaves the session replaced. *)
Lemma login_failure_message_unmapped :
  (exists s effs,
     step loginPending (HttpSettled 1 (Fulfilled wrongPasswordResponse)) = Some (s, effs) /\
     effs = [Respond (Failed (JStr "auth/wrong-password") None)] /\
     HomaraAuth.getFirebaseErrorMessage
       {| HomaraAuth.code := Some "auth/wrong-password";
          HomaraAuth.message := "auth/wrong-password" |} = "Incorrect password") /\
  (exists s effs,
     step loginPending (HttpSettled 1 (Fulfilled fragmentResponse)) = Some (s, effs) /\
     effs = [Respond (Failed (JStr "The URL contains a fragment identifier") None)] /\
     isAuthenticated (authState loginPending) = false /\
     isAuthenticated (authState s) = true /\
     userId (authState s) = JStr "u#1").
Proof. split; eexists _, _; vm_compute; repeat split. Qed.

(** * Further properties of main.js *)

(** ** The resources of an authenticated session *)

Lemma sessionUp_set_pending v s : sessionUp s -> sessionUp (set_pending v s).
Proof. destruct s. exact id. Qed.

Lemma sessionUp_logged_out s : isAuthenticated (authState s) = false -> sessionUp s.
Proof. unfold sessionUp. intros -> ?. discriminate. Qed.

Ltac session_goal P :=
  unfold sessionUp in *; flatten; cbn [isAuthenticated emptyAuthState];
  first [ intros ?; discriminate
        | intros Ha; specialize (P Ha); destruct P as (? & ?);
          split; eauto ].

Lemma sessionUp_handle e s u s' effs :
  Inv s -> sessionUp s -> enabled s e = true ->
  (forall id o, e <> HttpSettled id o) ->
  handle e s = (u, s', effs) -> sessionUp s'.
Proof.
  intros I P He Hne H.
  destruct e as [| | | |w|w|m p| | | |m ep d|msg|id o|i|k|k|k m|k f].
  13: { exfalso. eapply Hne. reflexivity. }
  1: { cbn [enabled] in He. apply negb_true_iff in He.
       rewrite (inv_before_ready s I He) in H.
       exec H; apply sessionUp_logged_out; reflexivity. }
  all: clear He I Hne; destruct s as [a ws ax t mw aw so ti wi pe fr st da].
  all: exec H; session_goal P.
Qed.

Lemma settle_accepted_sessionUp data s r s' effs :
  is_Some (axiosInstance s) -> accepted data = true ->
  authenticateUser_settle (Fulfilled data) s = (r, s', effs) -> sessionUp s'.
Proof.
  intros [ax0 Hax] Hacc H1.
  destruct s as [a ws ax t mw aw so ti wi pe fr st da]. cbn in Hax. subst ax.
  unfold authenticateUser_settle in H1.
  rewrite (acceptLogin_accepted _ Hacc) in H1.
  exec H1; unfold sessionUp; flatten; intros _; split; eauto; intros ?; try congruence; eauto.
Qed.

Lemma done_sessionUp r s u s' effs :
  sessionUp s -> authenticate_user_done r s = (u, s', effs) -> sessionUp s'.
Proof.
  intros P H. destruct s as [a ws ax t mw aw so ti wi pe fr st da].
  destruct r; exec H; session_goal P.
Qed.

Lemma sessionUp_step s e s' effs :
  Inv s -> sessionUp s -> step s e = Some (s', effs) -> sessionUp s'.
Proof.
  intros I P H. unfold step in H. destruct (enabled s e) eqn:He; [|discriminate].
  destruct (handle e s) as [[u s1] e1] eqn:Hrun. injection H as <- <-.
  assert ((exists id o, e = HttpSettled id o) \/ forall id o, e <> HttpSettled id o)
    as [(id & o & ->)|Hno] by (destruct e; eauto; right; discriminate).
  2: { eapply sessionUp_handle; eauto. }
  assert (started s = true) as Hst by (eapply enabled_started; eauto; discriminate).
  destruct (inv_ready s I Hst) as [ax Hax].
  unfold handle in Hrun.
  apply bind_inv in Hrun. destruct Hrun as (? & ? & ? & ? & H1 & H2 & ->). exec H1.
  apply bind_inv in H2. destruct H2 as (? & ? & ? & ? & H1 & H2 & ->). exec H1.
  cbv beta in H2.
  pose proof (sessionUp_set_pending (delete id (pending s)) s P) as P'.
  destruct (pending s !! id) as [[]|].
  - apply bind_inv in H2. destruct H2 as (r & s2 & ? & ? & H1 & H2 & ->).
    destruct (loginAccepted o) as [au|] eqn:Hacc.
    + destruct o as [data|]; [|discriminate]. cbn in Hacc.
      destruct (accepted data) eqn:Ha; [|discriminate].
      eapply done_sessionUp; [|exact H2].
      eapply settle_accepted_sessionUp; [|exact Ha|exact H1].
      destruct s; cbn in *; eauto.
    + rewrite (settle_refused _ _ Hacc) in H1. injection H1 as <- <- <-.
      eapply done_sessionUp; eauto.
  - destruct s as [a ws ax0 t mw aw so ti wi pe fr st da].
    destruct o; exec H2; exact P'.
  - exec H2. exact P'.
  - exec H2. exact P'.
Qed.

Lemma reachable_sessionUp s : reachable s -> sessionUp s.
Proof.
  induction 1 as [mac|s e s' effects Hr IH _ Hstep].
  - apply sessionUp_logged_out. reflexivity.
  - eapply sessionUp_step; eauto. apply reachable_Inv. exact Hr.
Qed.

(** X1. The monitor's interval is set only while the session is authenticated,
    and for every authenticated session but the one whose user id the
    socket's constructor refuses (that login threw before the monitor was
    started); it is the only timer there is. *)
Theorem monitor_runs_iff_authenticated s :
  reachable s ->
  (is_Some (connectionMonitorInterval s) -> isAuthenticated (authState s) = true) /\
  (isAuthenticated (authState s) = true ->
   refusesAddress (wsUrl (userId (authState s))) = false ->
   is_Some (connectionMonitorInterval s)) /\
  (forall i, i ∈ timers s <-> connectionMonitorInterval s = Some i).
Proof.
  intros Hr. pose proof (reachable_Inv s Hr) as I. pose proof (reachable_sessionUp s Hr) as P.
  split; [|split].
  - intros [i Hi]. destruct (isAuthenticated (authState s)) eqn:Ha; [reflexivity|].
    destruct (inv_logged_out s I Ha) as (_ & Hn & _). congruence.
  - intros Ha. destruct (P Ha) as (_ & Ht). exact Ht.
  - intros i. rewrite (inv_timers s I).
    destruct (connectionMonitorInterval s) as [j|]; set_solver.
Qed.

Lemma monitor_runs_iff_authenticated_witness :
  is_Some (connectionMonitorInterval loggedIn) /\ 3 ∈ timers loggedIn.
Proof.
  destruct (monitor_runs_iff_authenticated loggedIn loggedIn_reachable) as (_ & H1 & H2).
  split.
  - apply H1; vm_compute; reflexivity.
  - apply H2. vm_compute. reflexivity.
Defined.

(** ** The Authorization header of outgoing requests *)

Ltac split_in Hin :=
  cbn [In app] in Hin;
  repeat match type of Hin with
  | _ \/ _ => destruct Hin as [Hin|Hin]
  | False => contradiction
  | In _ (_ ++ _) => apply in_app_or in Hin
  | In _ (map _ _) => apply in_map_iff in Hin; destruct Hin as (? & Hin & _)
  | In _ [] => contradiction
  | In _ (_ :: _) => cbn [In] in Hin
  end.

Lemma settle_accepted_no_request data s r s' effs x :
  accepted data = true ->
  authenticateUser_settle (Fulfilled data) s = (r, s', effs) ->
  In x effs -> isHttpRequest x = false.
Proof.
  intros Hacc H1 Hin.
  unfold authenticateUser_settle in H1.
  rewrite (acceptLogin_accepted _ Hacc) in H1.
  exec H1; split_in Hin; subst x; reflexivity.
Qed.

Lemma done_no_request r s u s' effs x :
  authenticate_user_done r s = (u, s', effs) -> In x effs -> isHttpRequest x = false.
Proof.
  intros H Hin. destruct r; exec H; split_in Hin; subst x; reflexivity.
Qed.

Lemma handle_request_header e s u s' effs id m p b a :
  handle e s = (u, s', effs) ->
  In (HttpRequest id m p b a) effs ->
  exists ax,
    axiosInstance s = Some ax /\
    a = if truthy (token (authState s))
        then Some ("Bearer " +:+ js_toString (token (authState s)))
        else Authorization ax.
Proof.
  intros H Hin.
  destruct e as [| | | |w|w|m0 p0| | | |m0 ep d|msg|id0 o|i|k|k|k m0|k f].
  13: { exfalso. unfold handle in H.
        apply bind_inv in H. destruct H as (? & ? & ? & ? & H1 & H2 & ->). exec H1.
        apply bind_inv in H2. destruct H2 as (? & ? & ? & ? & H1 & H2 & ->). exec H1.
        cbv beta in H2. cbn [app] in Hin.
        destruct (pending s !! id0) as [[]|].
        - apply bind_inv in H2. destruct H2 as (r & s2 & ? & ? & H1 & H2 & ->).
          apply in_app_or in Hin. destruct Hin as [Hin|Hin].
          + destruct (loginAccepted o) as [au|] eqn:Hacc.
            * destruct o as [data|]; [|discriminate]. cbn in Hacc.
              destruct (accepted data) eqn:Ha; [|discriminate].
              pose proof (settle_accepted_no_request _ _ _ _ _ _ Ha H1 Hin). discriminate.
            * rewrite (settle_refused _ _ Hacc) in H1. injection H1 as <- <- <-.
              contradiction.
          + pose proof (done_no_request _ _ _ _ _ _ H2 Hin). discriminate.
        - destruct o; exec H2; split_in Hin; discriminate.
        - exec H2. contradiction.
        - exec H2. contradiction. }
  all: destruct s as [a0 ws ax t mw aw so ti wi pe fr st da].
  all: exec H; split_in Hin; try discriminate.
  all: injection Hin as <- <- <- <- <-; eexists; split; reflexivity.
Qed.

(** The header the request interceptor and the defaults give in a reachable
    state. *)
Lemma requests_header_of_state s :
  reachable s ->
  forall ax, axiosInstance s = Some ax ->
    (if truthy (token (authState s))
     then Some ("Bearer " +:+ js_toString (token (authState s)))
     else Authorization ax) = sessionHeader s.
Proof.
  intros Hr ax Hax. pose proof (reachable_Inv s Hr) as I.
  pose proof (reachable_sessionUp s Hr) as P.
  unfold sessionHeader. destruct (isAuthenticated (authState s)) eqn:Ha.
  - destruct (P Ha) as (Hh & _). rewrite Hax in Hh. injection Hh as ->.
    cbn [Authorization]. destruct (truthy _); reflexivity.
  - destruct (inv_logged_out s I Ha) as (-> & _ & Hnone & _).
    rewrite (Hnone _ Hax). reflexivity.
Qed.

(** X2. Every request the main process issues carries the session's token while
    the session is authenticated, and no Authorization header otherwise. *)
Theorem requests_carry_session_header s e s' effs id method path body a :
  reachable s ->
  step s e = Some (s', effs) ->
  In (HttpRequest id method path body a) effs ->
  a = sessionHeader s.
Proof.
  intros Hr H Hin.
  unfold step in H. destruct (enabled s e) eqn:He; [|discriminate].
  destruct (handle e s) as [[u s1] e1] eqn:Hrun. injection H as <- <-.
  destruct (handle_request_header _ _ _ _ _ _ _ _ _ _ Hrun Hin) as (ax & Hax & ->).
  apply requests_header_of_state; assumption.
Qed.

Lemma requests_carry_session_header_witness :
  exists s' effs,
    step loggedIn (IpcApiCall "GET" "/api/communities" JUndefined) = Some (s', effs) /\
    effs = [HttpRequest 5 "GET" "/api/communities" JUndefined (Some "Bearer tok")] /\
    Some "Bearer tok" = sessionHeader loggedIn.
Proof.
  destruct (step loggedIn (IpcApiCall "GET" "/api/communities" JUndefined))
    as [[s' effs]|] eqn:E; [|exfalso; vm_compute in E; discriminate].
  exists s', effs. split; [reflexivity|].
  assert (effs = [HttpRequest 5 "GET" "/api/communities" JUndefined (Some "Bearer tok")]) as He.
  { vm_compute in E. injection E as _ <-. reflexivity. }
  split; [exact He|].
  apply (requests_carry_session_header loggedIn _ s' effs 5 "GET" "/api/communities" JUndefined
           (Some "Bearer tok") loggedIn_reachable E).
  rewrite He. left. reflexivity.
Defined.

(** ** At most one live channel *)

Lemma down_or r : r = CLOSING \/ r = CLOSED -> r <> CONNECTING /\ r <> OPEN.
Proof. intros [->| ->]; split; discriminate. Qed.

Ltac live_lookup Hl :=
  repeat match type of Hl with
  | <[?j := _]> _ !! ?k = _ =>
      destruct (decide (j = k)) as [->|?];
      [rewrite lookup_insert_eq in Hl | rewrite lookup_insert_ne in Hl by done]
  | alter _ ?j _ !! ?k = _ =>
      destruct (decide (j = k)) as [->|?];
      [rewrite lookup_alter_eq in Hl | rewrite lookup_alter_ne in Hl by done]
  end.

Ltac live_goal P :=
  unfold oneLiveChannel in *; flatten; fields P; intros kq wq Hl Hn;
  live_lookup Hl;
  try congruence;
  try (eapply P; [eassumption|congruence]);
  try (destruct (_ !! _) as [w1|] eqn:Hw1 in Hl; cbn in Hl; [|discriminate];
       injection Hl as <-;
       first [ apply close_down
             | cbn; auto; fail
             | idtac ]).

Lemma oneLiveChannel_handle e s u s' effs :
  oneLiveChannel s -> enabled s e = true ->
  (forall id o, e <> HttpSettled id o) ->
  handle e s = (u, s', effs) -> oneLiveChannel s'.
Proof.
  intros P He Hne H.
  destruct e as [| | | |w|w|m p| | | |m ep d|msg|id o|i|k|k|k m|k f].
  13: { exfalso. eapply Hne. reflexivity. }
  all: clear Hne; destruct s as [a ws ax t mw aw so ti wi pe fr st da].
  all: cbn [enabled sockets] in He.
  all: exec H; live_goal P.
  (* the open event of a socket that is not the current one *)
  all: exfalso; rewrite Hw1 in He; destruct w1 as [u1 []]; try discriminate;
       destruct (P _ _ Hw1) as [E|E]; try discriminate; congruence.
Qed.

Lemma settle_accepted_oneLiveChannel data s r s' effs :
  oneLiveChannel s -> accepted data = true ->
  authenticateUser_settle (Fulfilled data) s = (r, s', effs) -> oneLiveChannel s'.
Proof.
  intros P Hacc H1.
  destruct s as [a ws ax t mw aw so ti wi pe fr st da].
  unfold authenticateUser_settle in H1.
  rewrite (acceptLogin_accepted _ Hacc) in H1.
  exec H1; live_goal P.
Qed.

Lemma done_oneLiveChannel r s u s' effs :
  oneLiveChannel s -> authenticate_user_done r s = (u, s', effs) -> oneLiveChannel s'.
Proof.
  intros P H. destruct s as [a ws ax t mw aw so ti wi pe fr st da].
  destruct r; exec H; exact P.
Qed.

Lemma oneLiveChannel_step s e s' effs :
  oneLiveChannel s -> step s e = Some (s', effs) -> oneLiveChannel s'.
Proof.
  intros P H. unfold step in H. destruct (enabled s e) eqn:He; [|discriminate].
  destruct (handle e s) as [[u s1] e1] eqn:Hrun. injection H as <- <-.
  assert ((exists id o, e = HttpSettled id o) \/ forall id o, e <> HttpSettled id o)
    as [(id & o & ->)|Hno] by (destruct e; eauto; right; discriminate).
  2: { eapply oneLiveChannel_handle; eauto. }
  unfold handle in Hrun.
  apply bind_inv in Hrun. destruct Hrun as (? & ? & ? & ? & H1 & H2 & ->). exec H1.
  apply bind_inv in H2. destruct H2 as (? & ? & ? & ? & H1 & H2 & ->). exec H1.
  cbv beta in H2.
  assert (oneLiveChannel (set_pending (delete id (pending s)) s)) as P'
    by (destruct s; exact P).
  destruct (pending s !! id) as [[]|].
  - apply bind_inv in H2. destruct H2 as (r & s2 & ? & ? & H1 & H2 & ->).
    destruct (loginAccepted o) as [au|] eqn:Hacc.
    + destruct o as [data|]; [|discriminate]. cbn in Hacc.
      destruct (accepted data) eqn:Ha; [|discriminate].
      eapply done_oneLiveChannel; [|exact H2].
      eapply settle_accepted_oneLiveChannel; [|exact Ha|exact H1]. exact P'.
    + rewrite (settle_refused _ _ Hacc) in H1. injection H1 as <- <- <-.
      eapply done_oneLiveChannel; eauto.
  - destruct s as [a ws ax0 t mw aw so ti wi pe fr st da].
    destruct o; exec H2; exact P'.
  - exec H2. exact P'.
  - exec H2. exact P'.
Qed.

(** X3. Whatever happens, at most one socket is live: every socket other than
    the one the handle points to is closing or closed, so the sockets that
    reconnects and logins replace never linger connecting or open. *)
Theorem one_live_channel s k ws :
  reachable s ->
  sockets s !! k = Some ws ->
  readyState ws = CONNECTING \/ readyState ws = OPEN ->
  mainProcessWebSocket s = Some k.
Proof.
  intros Hr Hk Hlive.
  assert (oneLiveChannel s) as P.
  { clear Hk Hlive. induction Hr as [mac|s e s' effects Hr IH _ Hstep].
    - intros k0 w0 Hl. cbn in Hl. rewrite lookup_empty in Hl. discriminate.
    - eapply oneLiveChannel_step; eauto. }
  destruct (decide (mainProcessWebSocket s = Some k)) as [E|Hne]; [exact E|].
  exfalso. destruct (P k ws Hk Hne) as [E|E]; rewrite E in Hlive;
    destruct Hlive; discriminate.
Qed.

Lemma one_live_channel_witness :
  sockets loggedIn !! 2 = Some {| url := wsUrl (JStr "u1"); readyState := OPEN |} /\
  mainProcessWebSocket loggedIn = Some 2.
Proof.
  assert (sockets loggedIn !! 2 = Some {| url := wsUrl (JStr "u1"); readyState := OPEN |}) as H
    by (vm_compute; reflexivity).
  split; [exact H|].
  apply (one_live_channel loggedIn 2 _ loggedIn_reachable H). right. reflexivity.
Defined.

(** ** Who writes the session record *)

(** X4. Apart from the three callbacks that log out and an accepted login
    response, no callback writes the session record: not a login whose
    response is refused or whose request fails, not an api-call or its
    answer, not a tick, a socket event or a window event. *)
Theorem session_written_only_by_login_and_logout s e s' effs :
  step s e = Some (s', effs) ->
  e <> IpcLogout -> e <> WindowAllClosed -> e <> BeforeQuit ->
  (forall id data,
     e = HttpSettled id (Fulfilled data) -> pending s !! id = Some LoginRequest ->
     accepted data = false) ->
  authState s' = authState s.
Proof.
  intros H N1 N2 N3 Hlogin.
  destruct e as [| | | |w|w|m p| | | |m ep d|msg|id o|i|k|k|k m|k f]; try congruence.
  10: { destruct (pending s !! id) as [[]|] eqn:Hp.
        - rewrite (login_settled_authState _ _ _ _ _ Hp H).
          destruct o as [data|]; [|reflexivity]. cbn.
          rewrite (Hlogin id data eq_refl Hp). reflexivity.
        - unfold step in H. destruct (enabled s _); [|discriminate].
          destruct (handle _ s) as [[u s1] e1] eqn:Hrun. injection H as <- <-.
          unfold handle in Hrun.
          apply bind_inv in Hrun. destruct Hrun as (? & ? & ? & ? & H1 & H2 & ->). exec H1.
          apply bind_inv in H2. destruct H2 as (? & ? & ? & ? & H1 & H2 & ->). exec H1.
          cbv beta in H2. rewrite Hp in H2. destruct s. destruct o; exec H2; reflexivity.
        - unfold step in H. destruct (enabled s _); [|discriminate].
          destruct (handle _ s) as [[u s1] e1] eqn:Hrun. injection H as <- <-.
          unfold handle in Hrun.
          apply bind_inv in Hrun. destruct Hrun as (? & ? & ? & ? & H1 & H2 & ->). exec H1.
          apply bind_inv in H2. destruct H2 as (? & ? & ? & ? & H1 & H2 & ->). exec H1.
          cbv beta in H2. rewrite Hp in H2. destruct s. exec H2; reflexivity.
        - unfold step in H. cbn [enabled] in H. rewrite Hp in H.
          rewrite bool_decide_eq_false_2 in H by (intros [? ?]; discriminate). discriminate. }
  all: unfold step in H; destruct (enabled s _); [|discriminate].
  all: destruct (handle _ s) as [[u s1] e1] eqn:Hrun; injection H as <- <-.
  all: destruct s as [a ws ax t mw aw so ti wi pe fr st da].
  all: exec Hrun; reflexivity.
Qed.

Lemma session_written_only_by_login_and_logout_witness :
  exists s' effs,
    step loginPending (HttpSettled 1 (Fulfilled wrongPasswordResponse)) = Some (s', effs) /\
    authState s' = authState loginPending.
Proof.
  destruct (step loginPending (HttpSettled 1 (Fulfilled wrongPasswordResponse)))
    as [[s' effs]|] eqn:E; [|exfalso; vm_compute in E; discriminate].
  exists s', effs. split; [reflexivity|].
  apply (session_written_only_by_login_and_logout _ _ _ _ E); try discriminate.
  intros id data [= <- <-] _. vm_compute. reflexivity.
Defined.

(** ** api-call *)

Lemma request_eq r method path body ax s :
  request r method path body ax s =
  (tt, set_pending (<[nextId s := r]> (pending s)) (set_nextId (S (nextId s)) s),
   [HttpRequest (nextId s) method path body
      (if truthy (token (authState s))
       then Some ("Bearer " +:+ js_toString (token (authState s)))
       else Authorization ax)]).
Proof.
  destruct (request r method path body ax s) as [[[] s1] e1] eqn:H.
  destruct s. exec H. reflexivity.
Qed.

(** X5. A supported method issues exactly one request: with the verb of the
    axios call the lower-cased method selects (get, post, put or delete), to
    the endpoint given, with the data as body for post and put and no body
    for get and delete, carrying the session's header; the request is pending
    and the renderer is answered only when it settles; the session and the
    channel are not touched. *)
Theorem api_call_issues_one_request s method endpoint data s' effs :
  reachable s ->
  In (toLowerCase method) ["get"; "post"; "put"; "delete"] ->
  step s (IpcApiCall method endpoint data) = Some (s', effs) ->
  exists id,
    effs = [HttpRequest id
              (if String.eqb (toLowerCase method) "get" then "GET"
               else if String.eqb (toLowerCase method) "post" then "POST"
               else if String.eqb (toLowerCase method) "put" then "PUT"
               else "DELETE")
              endpoint
              (if String.eqb (toLowerCase method) "post"
                  || String.eqb (toLowerCase method) "put"
               then data else JUndefined)
              (sessionHeader s)] /\
    pending s' = <[id := ApiRequest]> (pending s) /\
    authState s' = authState s /\
    mainProcessWebSocket s' = mainProcessWebSocket s /\
    sockets s' = sockets s.
Proof.
  intros Hr Hin H. pose proof (reachable_Inv s Hr) as I.
  pose proof (requests_header_of_state s Hr) as Hh.
  unfold step in H. destruct (enabled s _) eqn:He; [|discriminate].
  assert (started s = true) as Hst by (eapply enabled_started; eauto; discriminate).
  destruct (inv_ready s I Hst) as [ax Hax].
  cbn [handle] in H. unfold api_call, mbind, proc_bind, reads in H. rewrite Hax in H.
  cbv beta iota zeta in H. specialize (Hh ax Hax).
  cbn [In] in Hin.
  destruct Hin as [E|[E|[E|[E|[]]]]]; rewrite <- E in H |- *;
    cbn [String.eqb Ascii.eqb Bool.eqb orb] in H |- *; rewrite request_eq in H;
    injection H as <- <-; rewrite Hh;
    exists (nextId s); destruct s; repeat split; auto.
Qed.

Lemma api_call_issues_one_request_witness :
  exists s' effs id,
    step loggedIn (IpcApiCall "Post" "/api/communities" (JObj [("name", JStr "c")]))
      = Some (s', effs) /\
    effs = [HttpRequest id "POST" "/api/communities" (JObj [("name", JStr "c")])
              (Some "Bearer tok")].
Proof.
  destruct (step loggedIn (IpcApiCall "Post" "/api/communities" (JObj [("name", JStr "c")])))
    as [[s' effs]|] eqn:E; [|exfalso; vm_compute in E; discriminate].
  assert (In (toLowerCase "Post") ["get"; "post"; "put"; "delete"]) as Hin
    by (vm_compute; auto).
  destruct (api_call_issues_one_request loggedIn "Post" _ _ s' effs loggedIn_reachable Hin E)
    as (id & He & _).
  exists s', effs, id. split; [reflexivity|exact He].
Defined.

(** X6. The method is compared without regard to case: two spellings of a
    supported method are the same call. *)
Theorem api_call_method_case_insensitive m1 m2 endpoint data s :
  toLowerCase m1 = toLowerCase m2 ->
  In (toLowerCase m1) ["get"; "post"; "put"; "delete"] ->
  api_call m1 endpoint data s = api_call m2 endpoint data s.
Proof.
  intros E Hin. unfold api_call, mbind, proc_bind, reads.
  destruct (axiosInstance s) as [ax|]; [|reflexivity].
  cbv beta iota zeta. rewrite <- E.
  cbn [In] in Hin. destruct Hin as [<-|[<-|[<-|[<-|[]]]]]; reflexivity.
Qed.

Lemma api_call_method_case_insensitive_witness :
  api_call "GET" "/api/me" JNull loggedIn = api_call "get" "/api/me" JNull loggedIn.
Proof.
  apply (api_call_method_case_insensitive "GET" "get"); vm_compute; auto.
Defined.

(** X7. The answer to an api-call: the response's data on success; on failure
    the message the server sent, or else the error's own, with the status
    when the server answered. Nothing but the list of pending requests
    changes. *)
Theorem api_call_answer s id o s' effs :
  pending s !! id = Some ApiRequest ->
  step s (HttpSettled id o) = Some (s', effs) ->
  s' = set_pending (delete id (pending s)) s /\
  effs = [Respond match o with
                  | Fulfilled data => ApiSucceeded data
                  | Rejected m None => Failed (JStr m) None
                  | Rejected m (Some (d, status)) =>
                      Failed (if truthy (member d "message") then member d "message" else JStr m)
                        (Some status)
                  end].
Proof.
  intros Hp H. unfold step in H. destruct (enabled s _); [|discriminate].
  destruct (handle _ s) as [[u s1] e1] eqn:Hrun. injection H as <- <-.
  unfold handle in Hrun.
  apply bind_inv in Hrun. destruct Hrun as (? & ? & ? & ? & H1 & H2 & ->). exec H1.
  apply bind_inv in H2. destruct H2 as (? & ? & ? & ? & H1 & H2 & ->). exec H1.
  cbv beta in H2. rewrite Hp in H2.
  destruct o as [data|m [[d status]|]]; exec H2; split; reflexivity.
Qed.

Lemma api_call_answer_witness :
  exists s0 s' effs,
    step loggedIn (IpcApiCall "GET" "/api/me" JNull) = Some (s0, [HttpRequest 5 "GET" "/api/me" JUndefined (Some "Bearer tok")]) /\
    step s0 (HttpSettled 5 (Rejected "Request failed with status code 404"
                              (Some (JObj [("message", JStr "no such user")], 404%Z))))
      = Some (s', effs) /\
    effs = [Respond (Failed (JStr "no such user") (Some 404%Z))].
Proof.
  destruct (step loggedIn (IpcApiCall "GET" "/api/me" JNull)) as [[s0 e0]|] eqn:E0;
    [|exfalso; vm_compute in E0; discriminate].
  assert (e0 = [HttpRequest 5 "GET" "/api/me" JUndefined (Some "Bearer tok")]) as ->
    by (vm_compute in E0; injection E0 as _ <-; reflexivity).
  assert (pending s0 !! 5 = Some ApiRequest) as Hp
    by (vm_compute in E0; injection E0 as <- ; vm_compute; reflexivity).
  destruct (step s0 (HttpSettled 5 (Rejected "Request failed with status code 404"
                              (Some (JObj [("message", JStr "no such user")], 404%Z)))))
    as [[s' effs]|] eqn:E;
    [|exfalso; unfold step in E; cbn [enabled] in E; rewrite Hp in E;
      rewrite bool_decide_eq_true_2 in E by eauto;
      destruct (handle _ s0) as [[? ?] ?]; discriminate].
  exists s0, s', effs. split; [reflexivity|]. split; [exact E|].
  destruct (api_call_answer _ _ _ _ _ Hp E) as [_ ->]. reflexivity.
Defined.

(** ** The logout request *)





(** ** What the renderer is told after a login *)

(** X9. What the renderer learns of the session after an accepted login:
    get-auth-state returns the session record built from the response, from
    then on, and get-user-data its snapshot. The answer to authenticate-user
    carries that same record if the socket's constructor took the address
    built from the user id; if it refused it (the id contains '#'), the
    answer is a failure although the session is the new one. *)
Theorem login_answers_agree s id data s' effs :
  pending s !! id = Some LoginRequest ->
  accepted data = true ->
  step s (HttpSettled id (Fulfilled data)) = Some (s', effs) ->
  authState s' = sessionOf data /\
  isAuthenticated (authState s') = true /\
  get_user_data s' = Some (userDataToSend (authState s')) /\
  (forall s'' e2,
     step s' IpcGetAuthState = Some (s'', e2) ->
     s'' = s' /\ e2 = [Respond (AuthStateReply (authState s'))]) /\
  List.filter isRespond effs =
    [Respond (if refusesAddress (wsUrl (userId (sessionOf data)))
              then Failed (JStr fragmentError) None
              else LoginSucceeded (authState s'))].
Proof.
  intros Hp Hacc H.
  pose proof (login_settled_authState _ _ _ _ _ Hp H) as Ha. cbn in Ha. rewrite Hacc in Ha.
  split; [exact Ha|]. split; [rewrite Ha; reflexivity|].
  split; [unfold get_user_data; rewrite Ha; reflexivity|].
  split.
  - intros s'' e2 H2. unfold step in H2. destruct (enabled s' _); [|discriminate].
    cbn in H2. injection H2 as <- <-. split; reflexivity.
  - rewrite Ha. exact (login_accepted_reply _ _ _ _ _ Hp Hacc H).
Qed.

Lemma login_answers_agree_witness :
  (exists s' effs,
     step loginPending (HttpSettled 1 (Fulfilled goodResponse)) = Some (s', effs) /\
     List.filter isRespond effs = [Respond (LoginSucceeded (authState s'))] /\
     get_user_data s' = Some (userDataToSend (authState s'))) /\
  (exists s' effs,
     step loginPending (HttpSettled 1 (Fulfilled fragmentResponse)) = Some (s', effs) /\
     List.filter isRespond effs = [Respond (Failed (JStr fragmentError) None)] /\
     isAuthenticated (authState s') = true).
Proof.
  split.
  - destruct (step loginPending (HttpSettled 1 (Fulfilled goodResponse)))
      as [[s' effs]|] eqn:E; [|exfalso; vm_compute in E; discriminate].
    destruct (login_answers_agree loginPending 1 goodResponse s' effs)
      as (_ & _ & H2 & _ & H1); [vm_compute; reflexivity..|exact E|].
    exists s', effs. auto.
  - destruct (step loginPending (HttpSettled 1 (Fulfilled fragmentResponse)))
      as [[s' effs]|] eqn:E; [|exfalso; vm_compute in E; discriminate].
    destruct (login_answers_agree loginPending 1 fragmentResponse s' effs)
      as (_ & Ha & _ & _ & H1); [vm_compute; reflexivity..|exact E|].
    exists s', effs. auto.
Defined.

(** ** Windows *)

(** X10. When the last window has closed the session is logged out in any case;
    the application quits unless it runs on macOS. *)
Theorem window_all_closed_logs_out s s' effs :
  step s WindowAllClosed = Some (s', effs) ->
  authState s' = emptyAuthState /\
  connectionMonitorInterval s' = None /\
  (In AppQuit effs <-> darwin s = false) /\
  darwin s' = darwin s.
Proof.
  intros H. unfold step in H. destruct (enabled s _); [|discriminate].
  destruct (handle _ s) as [[u s1] e1] eqn:Hrun. injection H as <- <-.
  cbn [handle] in Hrun.
  apply bind_inv in Hrun. destruct Hrun as (? & s2 & ? & ? & H1 & H2 & ->).
  rewrite logoutUser_eq in H1. injection H1 as _ <- <-.
  destruct s as [a ws ax t mw aw so ti wi pe fr st da].
  exec H2; flatten; (split; [reflexivity|]); (split; [reflexivity|]); (split; [|reflexivity]).
  all: destruct ws; cbn [app In]; intuition (try discriminate; auto).
Qed.

Lemma window_all_closed_logs_out_witness :
  exists s' effs,
    step (stateAfter [AppReady; WindowClosed 0]) WindowAllClosed = Some (s', effs) /\
    authState s' = emptyAuthState /\
    In AppQuit effs.
Proof.
  destruct (step (stateAfter [AppReady; WindowClosed 0]) WindowAllClosed)
    as [[s' effs]|] eqn:E; [|exfalso; vm_compute in E; discriminate].
  destruct (window_all_closed_logs_out _ s' effs E) as (Ha & _ & Hq & _).
  exists s', effs. split; [reflexivity|]. split; [exact Ha|].
  apply Hq. vm_compute. reflexivity.
Defined.



(** ** Socket events *)

Lemma getAllWindows_spec s :
  NoDup (getAllWindows s) /\ forall w, w ∈ getAllWindows s <-> is_Some (windows s !! w).
Proof.
  unfold getAllWindows. split.
  - apply NoDup_fst_map_to_list.
  - intros w. rewrite list_elem_of_fmap. split.
    + intros ([w' b] & -> & Hin). apply elem_of_map_to_list in Hin. cbn. eauto.
    + intros [b Hb]. exists (w, b). split; [reflexivity|].
      apply elem_of_map_to_list. exact Hb.
Qed.

(** X12. A socket event is published to every open window exactly once, and to
    nothing else; a frame that is not JSON is dropped without a trace. The
    session record, the windows and the handle are not touched. *)
Theorem socket_event_reaches_every_window s e s' effs :
  isSocketEvent e = true ->
  step s e = Some (s', effs) ->
  effs = match published e with
         | Some p => map (fun w => Send w p) (getAllWindows s)
         | None => []
         end /\
  NoDup (getAllWindows s) /\
  (forall w, w ∈ getAllWindows s <-> is_Some (windows s !! w)) /\
  authState s' = authState s /\
  windows s' = windows s /\
  mainProcessWebSocket s' = mainProcessWebSocket s.
Proof.
  intros Hse H. unfold step in H. destruct (enabled s e); [|discriminate].
  destruct (handle e s) as [[u s1] e1] eqn:Hrun. injection H as <- <-.
  destruct (getAllWindows_spec s) as [Hnd Hin].
  split; [|split; [exact Hnd|split; [exact Hin|]]].
  - destruct e; try discriminate; cbn [published];
      destruct s as [a ws ax t mw aw so ti wi pe fr st da];
      exec Hrun; reflexivity.
  - destruct e; try discriminate;
      destruct s as [a ws ax t mw aw so ti wi pe fr st da];
      exec Hrun; repeat split; reflexivity.
Qed.

Lemma socket_event_reaches_every_window_witness :
  exists s' effs,
    step loggedIn (WsMessage 2 (Some (JObj [("type", JStr "point")]))) = Some (s', effs) /\
    effs = [Send 4 (WebsocketMessage (JObj [("type", JStr "point")]))].
Proof.
  destruct (step loggedIn (WsMessage 2 (Some (JObj [("type", JStr "point")]))))
    as [[s' effs]|] eqn:E; [|exfalso; vm_compute in E; discriminate].
  exists s', effs. split; [reflexivity|].
  destruct (socket_event_reaches_every_window loggedIn (WsMessage 2 (Some (JObj [("type", JStr "point")]))) s' effs eq_refl E) as (-> & _).
  vm_compute. reflexivity.
Defined.

(** * The web pages *)

(** ** Strings *)

Lemma trimStart_head s :
  trimStart s = [] \/ exists c r, trimStart s = c :: r /\ isWhiteSpace c = false.
Proof.
  induction s as [|c r IH]; [left; reflexivity|].
  cbn [trimStart]. destruct (isWhiteSpace c) eqn:E; [exact IH|].
  right. exists c, r. auto.
Qed.

Lemma trimEnd_cons c r : isWhiteSpace c = false -> trimEnd (c :: r) = c :: trimEnd r.
Proof. intros E. cbn [trimEnd]. rewrite E. destruct (trimEnd r); reflexivity. Qed.

Lemma trimEnd_idempotent s : trimEnd (trimEnd s) = trimEnd s.
Proof.
  induction s as [|c r IH]; [reflexivity|].
  cbn [trimEnd]. destruct (trimEnd r) as [|d k] eqn:E.
  - destruct (isWhiteSpace c) eqn:Ec; [reflexivity|]. cbn [trimEnd]. rewrite Ec. reflexivity.
  - cbn [trimEnd]. cbn [trimEnd] in IH. rewrite IH. reflexivity.
Qed.

Lemma trim_idempotent s : trim (trim s) = trim s.
Proof.
  unfold trim. destruct (trimStart_head s) as [->|(c & r & -> & Ec)]; [reflexivity|].
  rewrite (trimEnd_cons _ _ Ec). cbn [trimStart]. rewrite Ec.
  rewrite <- (trimEnd_cons _ _ Ec). apply trimEnd_idempotent.
Qed.

(** What [trimStart] drops is white space. *)
Lemma trimStart_spec s :
  exists l, s = l ++ trimStart s /\ forallb isWhiteSpace l = true.
Proof.
  induction s as [|c r (l & E & Hl)]; [exists []; auto|].
  cbn [trimStart]. destruct (isWhiteSpace c) eqn:Ec.
  - exists (c :: l). cbn [app forallb]. rewrite Ec, Hl, <- E. auto.
  - exists []. auto.
Qed.

(** What [trimEnd] drops is white space, and what it keeps does not end in
    white space. *)
Lemma trimEnd_spec s :
  exists r, s = trimEnd s ++ r /\ forallb isWhiteSpace r = true.
Proof.
  induction s as [|c k (r & E & Hr)]; [exists []; auto|].
  cbn [trimEnd]. destruct (trimEnd k) as [|d kept] eqn:Ek.
  - cbn [app] in E. subst k. destruct (isWhiteSpace c) eqn:Ec.
    + exists (c :: r). cbn [app forallb]. rewrite Ec, Hr. auto.
    + exists r. auto.
  - exists r. cbn [app] in *. rewrite <- E. auto.
Qed.

Lemma trimEnd_last s c : last (trimEnd s) = Some c -> isWhiteSpace c = false.
Proof.
  induction s as [|d k IH]; [discriminate|].
  cbn [trimEnd]. destruct (trimEnd k) as [|e kept] eqn:Ek.
  - destruct (isWhiteSpace d) eqn:Ed; [discriminate|]. intros [= <-]. exact Ed.
  - intros H. apply IH. exact H.
Qed.

(** [trim] removes white space, and only white space, from both ends. *)
Lemma trim_spec s :
  (exists l r,
     s = l ++ trim s ++ r /\
     forallb isWhiteSpace l = true /\ forallb isWhiteSpace r = true) /\
  (forall c, head (trim s) = Some c -> isWhiteSpace c = false) /\
  (forall c, last (trim s) = Some c -> isWhiteSpace c = false).
Proof.
  unfold trim. split; [|split].
  - destruct (trimStart_spec s) as (l & E & Hl).
    destruct (trimEnd_spec (trimStart s)) as (r & E' & Hr).
    exists l, r. rewrite <- E', <- E. auto.
  - intros c. destruct (trimStart_head s) as [->|(d & r & -> & Ed)]; [discriminate|].
    rewrite (trimEnd_cons _ _ Ed). intros [= <-]. exact Ed.
  - apply trimEnd_last.
Qed.

Lemma trimStart_blank s : forallb isWhiteSpace s = true -> trim s = [].
Proof.
  unfold trim. induction s as [|c r IH]; [reflexivity|].
  cbn [forallb trimStart]. intros H. apply andb_true_iff in H as [-> Hr]. auto.
Qed.

Lemma isEmpty_true s : isEmpty s = true -> s = [].
Proof. destruct s; [reflexivity|discriminate]. Qed.

Lemma isEmpty_false s : isEmpty s = false -> s <> [].
Proof. intros E ->. discriminate. Qed.

(** ** UTF-8 text *)

Lemma isBlank_cons1 a r :
  (N_of_ascii a <? 128)%N = true ->
  isBlank (String a r) = isWhiteSpace (N_of_ascii a) && isBlank r.
Proof. intros E. cbn [isBlank]. rewrite E. reflexivity. Qed.

Lemma isBlank_utf8 c r : isWhiteSpace c = true -> isBlank (utf8 c +:+ r) = isBlank r.
Proof.
  unfold isWhiteSpace. rewrite existsb_exists. intros (x & Hin & E).
  apply N.eqb_eq in E. subst x. unfold whiteSpaces in Hin. cbn [In] in Hin.
  repeat (destruct Hin as [<-|Hin]; [reflexivity|]). contradiction.
Qed.

Lemma isBlank_utf8s cs : forallb isWhiteSpace cs = true -> isBlank (utf8s cs) = true.
Proof.
  induction cs as [|c cs IH]; [reflexivity|].
  cbn [forallb utf8s]. rewrite andb_true_iff. intros [Hc Hcs].
  rewrite (isBlank_utf8 _ _ Hc). auto.
Qed.

Lemma ascii_of_N_of_ascii a n : N_of_ascii a = n -> ascii_of_N n = a.
Proof. intros <-. apply ascii_N_embedding. Qed.

Lemma div_mod_64 (x y : N) :
  (y < 64 -> (x * 64 + y) / 64 = x /\ (x * 64 + y) mod 64 = y)%N.
Proof.
  intros Hy. split.
  - rewrite N.div_add_l by discriminate. rewrite N.div_small by exact Hy. apply N.add_0_r.
  - rewrite N.add_comm, N.Div0.mod_add. apply N.mod_small. exact Hy.
Qed.

Lemma div_mod_4096 (x y z : N) :
  (y < 64 -> z < 64 ->
   (x * 4096 + y * 64 + z) / 4096 = x /\
   ((x * 4096 + y * 64 + z) / 64) mod 64 = y /\
   (x * 4096 + y * 64 + z) mod 64 = z)%N.
Proof.
  intros Hy Hz. split; [|split].
  - rewrite <- N.add_assoc. rewrite N.div_add_l by discriminate.
    rewrite N.div_small by lia. apply N.add_0_r.
  - replace (x * 4096 + y * 64 + z)%N with ((x * 64 + y) * 64 + z)%N by lia.
    rewrite (proj1 (div_mod_64 _ _ Hz)). apply div_mod_64. exact Hy.
  - replace (x * 4096 + y * 64 + z)%N with ((x * 64 + y) * 64 + z)%N by lia.
    apply div_mod_64. exact Hz.
Qed.

Lemma isBlank_inv n :
  forall s, String.length s <= n -> isBlank s = true ->
  exists cs, forallb isWhiteSpace cs = true /\ s = utf8s cs.
Proof.
  induction n as [|n IH]; intros s Hlen H.
  { destruct s; [exists []; auto|cbn in Hlen; lia]. }
  destruct s as [|a r]; [exists []; auto|].
  cbn [isBlank] in H. cbn [String.length] in Hlen.
  destruct (N_of_ascii a <? 128)%N eqn:Ea.
  { apply andb_true_iff in H as [Hw Hb].
    destruct (IH r ltac:(lia) Hb) as (cs & Hcs & ->).
    exists (N_of_ascii a :: cs). cbn [forallb utf8s]. rewrite Hw, Hcs. split; [reflexivity|].
    unfold utf8. rewrite Ea, ascii_N_embedding. reflexivity. }
  destruct r as [|b r]; [discriminate|]. cbn [String.length] in Hlen.
  destruct (N_of_ascii a <? 224)%N eqn:Ea2.
  { unfold continuation in H.
    repeat match goal with
         | E : _ && _ = true |- _ => apply andb_true_iff in E; destruct E
         end.
    destruct (IH r ltac:(lia)) as (cs & Hcs & ->); [assumption|].
    apply N.ltb_ge in Ea. apply N.ltb_lt in Ea2.
    repeat match goal with
           | E : (_ <=? _)%N = true |- _ => apply N.leb_le in E
           | E : (_ <? _)%N = true |- _ => apply N.ltb_lt in E
           end.
    set (cp := ((N_of_ascii a - 192) * 64 + (N_of_ascii b - 128))%N) in *.
    exists (cp :: cs). cbn [forallb utf8s]. split; [apply andb_true_iff; auto|].
    unfold utf8.
    replace (cp <? 128)%N with false by (symmetry; apply N.ltb_ge; subst cp; lia).
    replace (cp <? 2048)%N with true by (symmetry; apply N.ltb_lt; subst cp; lia).
    subst cp.
    destruct (div_mod_64 (N_of_ascii a - 192) (N_of_ascii b - 128)) as [-> ->]; [lia|].
    rewrite (ascii_of_N_of_ascii a), (ascii_of_N_of_ascii b); [reflexivity|lia..]. }
  destruct r as [|c r]; [discriminate|]. cbn [String.length] in Hlen.
  unfold continuation in H.
  repeat match goal with
         | E : _ && _ = true |- _ => apply andb_true_iff in E; destruct E
         end.
  destruct (IH r ltac:(lia)) as (cs & Hcs & ->); [assumption|].
  apply N.ltb_ge in Ea, Ea2.
  repeat match goal with
         | E : (_ <=? _)%N = true |- _ => apply N.leb_le in E
         | E : (_ <? _)%N = true |- _ => apply N.ltb_lt in E
         end.
  set (cp := ((N_of_ascii a - 224) * 4096 + (N_of_ascii b - 128) * 64
              + (N_of_ascii c - 128))%N) in *.
  exists (cp :: cs). cbn [forallb utf8s]. split; [apply andb_true_iff; auto|].
  unfold utf8.
  replace (cp <? 128)%N with false by (symmetry; apply N.ltb_ge; lia).
  replace (cp <? 2048)%N with false by (symmetry; apply N.ltb_ge; lia).
  subst cp.
  destruct (div_mod_4096 (N_of_ascii a - 224) (N_of_ascii b - 128) (N_of_ascii c - 128))
    as (-> & -> & ->); [lia..|].
  rewrite (ascii_of_N_of_ascii a), (ascii_of_N_of_ascii b), (ascii_of_N_of_ascii c);
    [reflexivity|lia..].
Qed.

(** A text is blank exactly when it is the encoding of a sequence of white
    space. *)
Lemma isBlank_spec s :
  isBlank s = true <-> exists cs, forallb isWhiteSpace cs = true /\ s = utf8s cs.
Proof.
  split.
  - apply (isBlank_inv (String.length s)). apply le_n.
  - intros (cs & Hcs & ->). apply isBlank_utf8s. exact Hcs.
Qed.

Lemma prefix_spec q s : String.prefix q s = true <-> exists post, s = q +:+ post.
Proof.
  revert s. induction q as [|c q IH]; intros s.
  - split; [intros _; exists s; reflexivity|intros _; destruct s; reflexivity].
  - destruct s as [|d s]; cbn.
    + split; [discriminate|]. intros [post E]. discriminate.
    + destruct (Ascii.ascii_dec c d) as [->|Hne].
      * rewrite IH. split; intros [post E]; exists post; [rewrite E; reflexivity|].
        injection E as E. exact E.
      * split; [discriminate|]. intros [post E]. injection E as E1 E2. congruence.
Qed.

Lemma append_cons x (a b : string) : String x a +:+ b = String x (a +:+ b).
Proof. reflexivity. Qed.

Lemma append_nil (b : string) : "" +:+ b = b.
Proof. reflexivity. Qed.

Lemma toLowerCase_cons x s : toLowerCase (String x s) = String (lower_ascii x) (toLowerCase s).
Proof. reflexivity. Qed.

Lemma append_assoc (a b c : string) : (a +:+ b) +:+ c = a +:+ (b +:+ c).
Proof.
  induction a as [|x a IH]; [reflexivity|]. rewrite !append_cons, IH. reflexivity.
Qed.

Lemma includes_spec s q : includes s q = true <-> exists pre post, s = pre +:+ q +:+ post.
Proof.
  induction s as [|c s IH].
  - cbn [includes]. rewrite orb_false_r, prefix_spec. split.
    + intros [post E]. exists "", post. exact E.
    + intros (pre & post & E). destruct pre; [exists post; exact E|discriminate].
  - cbn [includes]. rewrite orb_true_iff, prefix_spec, IH. split.
    + intros [[post E]|(pre & post & E)].
      * exists "", post. exact E.
      * exists (String c pre), post. cbn. rewrite E. reflexivity.
    + intros (pre & post & E). destruct pre as [|d pre].
      * left. exists post. exact E.
      * right. cbn in E. injection E as _ E. exists pre, post. exact E.
Qed.

Lemma includes_trans s q2 q1 :
  includes s q2 = true -> includes q2 q1 = true -> includes s q1 = true.
Proof.
  rewrite !includes_spec. intros (p2 & t2 & ->) (p1 & t1 & ->).
  exists (p2 +:+ p1), (t1 +:+ t2). rewrite !append_assoc. reflexivity.
Qed.

Lemma lower_ascii_idempotent c : lower_ascii (lower_ascii c) = lower_ascii c.
Proof. destruct c as [[] [] [] [] [] [] [] []]; vm_compute; reflexivity. Qed.

Lemma toLowerCase_idempotent s : toLowerCase (toLowerCase s) = toLowerCase s.
Proof.
  induction s as [|c s IH]; [reflexivity|].
  rewrite !toLowerCase_cons, lower_ascii_idempotent, IH. reflexivity.
Qed.

Lemma toLowerCase_append a b : toLowerCase (a +:+ b) = toLowerCase a +:+ toLowerCase b.
Proof.
  induction a as [|x a IH]; [reflexivity|].
  rewrite append_cons, !toLowerCase_cons, append_cons, IH. reflexivity.
Qed.

Lemma includes_toLowerCase s q :
  includes s q = true -> includes (toLowerCase s) (toLowerCase q) = true.
Proof.
  rewrite !includes_spec. intros (pre & post & ->).
  exists (toLowerCase pre), (toLowerCase post). rewrite !toLowerCase_append. reflexivity.
Qed.

(** ** menu.js *)

Section Menu.
Import HomaraMenu.

Lemma expanded_decide (cl : gset string) (b : bool) :
  ("expanded" ∈ cl <-> b = true) -> bool_decide ("expanded" ∈ cl) = b.
Proof.
  intros H. destruct b.
  - apply bool_decide_eq_true_2. apply H. reflexivity.
  - apply bool_decide_eq_false_2. intros Hin. apply H in Hin. discriminate.
Qed.

Ltac msimpl :=
  cbn [isExpanded isHovered isMinimized classList menuTooltip searchInput menuItems
       bottomMenuItems fst snd negb andb orb].

Ltac munfold :=
  unfold togglePinnedState, mouseenter, mouseleave, minimizeMenu, restoreMenu, handleSearch,
    clearSearch, showAllMenuItems, filterMenuItems, generateMenuItems, setItems, setHovered,
    setSearchInput, updateTooltipText, consistent, tooltipOf.

Ltac menu_split :=
  repeat match goal with
  | |- _ /\ _ => split
  | |- _ <-> _ => split
  | |- _ -> _ => intro
  | H : _ /\ _ |- _ => destruct H
  end.

Ltac menu_close :=
  lazymatch goal with
  | |- _ ∈ _ => first [tauto | set_solver]
  | |- @eq bool _ _ => first [reflexivity | discriminate | congruence | tauto | exfalso; set_solver]
  | |- @eq string _ _ => first [reflexivity | congruence]
  | |- _ => idtac
  end.

Ltac decide_class :=
  repeat first
    [ rewrite (bool_decide_eq_false_2 ("expanded" ∈ _)) by set_solver
    | rewrite (bool_decide_eq_true_2 ("expanded" ∈ _)) by set_solver ];
  rewrite ?orb_false_r, ?orb_true_r.

Ltac menu_go := msimpl; decide_class; menu_split; menu_close.

Lemma consistent_init classes value :
  "expanded" ∉ classes -> "minimized" ∉ classes -> consistent (init classes value).
Proof. intros H1 H2. unfold init. munfold. menu_go. Qed.

Lemma consistent_handle e m : consistent m -> consistent (fst (handle e m)).
Proof.
  intros (He & Hm & Hx & Ht). destruct m as [e0 h mi cl tt si it bt].
  unfold tooltipOf in Ht.
  cbn [isExpanded isHovered isMinimized classList menuTooltip] in He, Hm, Hx, Ht.
  destruct e as [|o| | | |c mt k|v|k|i]; cbn [handle fst]; munfold; msimpl.
  - destruct mi, e0, h; menu_go.
  - destruct mi, e0, h, o; menu_go.
  - destruct mi, e0, h; menu_go.
  - destruct mi, e0, h; menu_go.
  - destruct mi, e0, h; menu_go.
  - destruct ((c || mt) && String.eqb k "m"), mi, e0, h; menu_go.
  - destruct (isBlank v), mi, e0, h; menu_go.
  - destruct (String.eqb k "Enter"), (String.eqb k "Escape"), mi, e0, h; menu_go.
  - destruct mi, e0, h; menu_go.
Qed.

Lemma reachable_consistent m : reachable m -> consistent m.
Proof.
  induction 1 as [classes value H1 H2|m e _ IH].
  - apply consistent_init; assumption.
  - apply consistent_handle. exact IH.
Qed.

Lemma init_reachable : reachable (init ∅ "").
Proof. apply reachable_init; set_solver. Qed.

(** X13. In every state the menu reaches, the sidebar carries the class
    'expanded' exactly when the menu is pinned and 'minimized' exactly when
    it is minimized, and a minimized menu is neither pinned nor hovered. *)
Theorem menu_flags_mirror_classes m :
  reachable m ->
  ("expanded" ∈ classList m <-> isExpanded m = true) /\
  ("minimized" ∈ classList m <-> isMinimized m = true) /\
  (isMinimized m = true -> isExpanded m = false /\ isHovered m = false).
Proof. intros Hr. destruct (reachable_consistent m Hr) as (H1 & H2 & H3 & _). auto. Qed.

Lemma menu_flags_mirror_classes_witness :
  "minimized" ∈ classList (run (init ∅ "") [MouseEnter false; MenuIconClick; MinimizeClick]) /\
  isExpanded (run (init ∅ "") [MouseEnter false; MenuIconClick; MinimizeClick]) = false.
Proof.
  destruct (menu_flags_mirror_classes
              (run (init ∅ "") [MouseEnter false; MenuIconClick; MinimizeClick]))
    as (_ & H2 & H3).
  - repeat apply reachable_handle. apply init_reachable.
  - split; [apply H2; reflexivity|apply H3; reflexivity].
Defined.

(** X14. The tooltip is never stale: in every state the menu reaches it is the
    text the three flags determine. In particular the test of the class
    'expanded' in updateTooltipText never decides: "Keep menu expanded" is
    shown exactly when the menu is hovered and neither pinned nor minimized. *)
Theorem tooltip_follows_flags m :
  reachable m ->
  menuTooltip m = tooltipOf m /\
  (menuTooltip m = "Keep menu expanded" <->
   isHovered m = true /\ isExpanded m = false /\ isMinimized m = false).
Proof.
  intros Hr. destruct (reachable_consistent m Hr) as (_ & _ & _ & Ht).
  split; [exact Ht|]. rewrite Ht. unfold tooltipOf.
  destruct (isMinimized m), (isExpanded m), (isHovered m); menu_split; menu_close.
Qed.

Lemma tooltip_follows_flags_witness :
  menuTooltip (run (init ∅ "") [MouseEnter false; MenuIconClick; MouseLeave; MenuIconClick])
  = "Keep menu expanded".
Proof.
  destruct (tooltip_follows_flags
              (run (init ∅ "") [MouseEnter false; MenuIconClick; MouseLeave; MenuIconClick]))
    as [_ H].
  - repeat apply reachable_handle. apply init_reachable.
  - apply H. repeat split; reflexivity.
Defined.

(** X15. The menu manages two classes of the sidebar and no other: whatever the
    event, a class other than 'expanded' and 'minimized' (such as 'hovered',
    which auth.js tests) is on the sidebar afterwards exactly if it was
    before. *)
Theorem menu_manages_two_classes e m c :
  c <> "expanded" -> c <> "minimized" ->
  (c ∈ classList (fst (handle e m)) <-> c ∈ classList m).
Proof.
  intros H1 H2. destruct m as [e0 h mi cl tt si it bt].
  destruct e as [|o| | | |ck mt k|v|k|i]; cbn [handle fst]; munfold; msimpl.
  - destruct mi, e0; msimpl; set_solver.
  - destruct mi, e0, o; msimpl; set_solver.
  - destruct mi, e0; msimpl; set_solver.
  - set_solver.
  - set_solver.
  - destruct ((ck || mt) && String.eqb k "m"), mi, e0; msimpl; set_solver.
  - destruct (isBlank v); msimpl; set_solver.
  - destruct (String.eqb k "Enter"), (String.eqb k "Escape"); msimpl; set_solver.
  - set_solver.
Qed.

Lemma menu_manages_two_classes_witness :
  "hovered" ∉ classList (fst (handle (MouseEnter false) (init ∅ ""))).
Proof.
  intros H.
  apply (menu_manages_two_classes (MouseEnter false) (init ∅ "") "hovered") in H;
    [|discriminate..].
  exact (not_elem_of_empty (C:=gset string) "hovered" H).
Defined.

(** X16. A minimized menu is inert for the sidebar and the document: until the
    pull tab restores it, a click on the menu icon, the mouse entering or
    leaving the sidebar and any key that reaches the document's keydown
    listener (the shortcuts Ctrl/Cmd+M and Ctrl/Cmd+F included) change
    nothing and focus nothing. The listeners of the search box and of the
    menu items are other events, and they do act on a minimized menu. *)
Theorem minimized_menu_is_inert m e :
  reachable m ->
  isMinimized m = true ->
  (e = MenuIconClick \/ (exists overIcon, e = MouseEnter overIcon) \/ e = MouseLeave \/
   exists ctrlKey metaKey key, e = KeyDown ctrlKey metaKey key) ->
  handle e m = (m, []).
Proof.
  intros Hr Hmin He. destruct (reachable_consistent m Hr) as (_ & _ & Hx & _).
  destruct (Hx Hmin) as [Hexp Hhov].
  destruct He as [->|[[o ->]|[->|(c & mt & k & ->)]]]; cbn [handle].
  - unfold togglePinnedState. rewrite Hmin. reflexivity.
  - unfold mouseenter. rewrite Hmin, Hexp. reflexivity.
  - unfold mouseleave. rewrite Hmin, Hexp. reflexivity.
  - unfold togglePinnedState. rewrite Hmin.
    destruct ((c || mt) && String.eqb k "m"); rewrite Hexp, Hhov, andb_false_r; reflexivity.
Qed.

Lemma minimized_menu_is_inert_witness :
  handle (KeyDown true false "f") (run (init ∅ "") [MenuIconClick; MinimizeClick])
  = (run (init ∅ "") [MenuIconClick; MinimizeClick], []).
Proof.
  apply minimized_menu_is_inert.
  - repeat apply reachable_handle. apply init_reachable.
  - reflexivity.
  - right. right. right. eauto.
Defined.

(** X17. Pinning is undone by unpinning: two clicks on the menu icon in a row
    bring a menu that is not minimized back to the state it was in, classes
    and tooltip included. *)
Theorem toggle_twice_restores m :
  reachable m ->
  isMinimized m = false ->
  togglePinnedState (togglePinnedState m) = m.
Proof.
  intros Hr Hmin. destruct (reachable_consistent m Hr) as (He & _ & _ & Ht).
  destruct m as [e0 h mi cl tt si it bt].
  unfold tooltipOf in Ht.
  cbn [isExpanded isHovered isMinimized classList menuTooltip] in He, Hmin, Ht. subst mi.
  munfold. msimpl.
  destruct e0; msimpl; decide_class.
  - assert ("expanded" ∈ cl) as Hin by (apply He; reflexivity).
    subst tt. f_equal. symmetry. apply union_difference_L. set_solver.
  - assert ("expanded" ∉ cl) as Hin by (intros Hin; apply He in Hin; discriminate).
    subst tt. destruct h; f_equal; set_solver.
Qed.

Lemma toggle_twice_restores_witness :
  togglePinnedState (togglePinnedState (run (init ∅ "") [MouseEnter false]))
  = run (init ∅ "") [MouseEnter false].
Proof.
  apply toggle_twice_restores.
  - repeat apply reachable_handle. apply init_reachable.
  - reflexivity.
Defined.

(** X18. Minimizing and restoring collapses the menu whatever state it was in:
    not pinned, not hovered, not minimized, neither class on the sidebar and
    the tooltip "Expand menu". Minimizing twice is minimizing once. *)
Theorem minimize_then_restore_collapses m :
  isExpanded (restoreMenu (minimizeMenu m)) = false /\
  isHovered (restoreMenu (minimizeMenu m)) = false /\
  isMinimized (restoreMenu (minimizeMenu m)) = false /\
  ("expanded" ∉ classList (restoreMenu (minimizeMenu m))) /\
  ("minimized" ∉ classList (restoreMenu (minimizeMenu m))) /\
  menuTooltip (restoreMenu (minimizeMenu m)) = "Expand menu" /\
  minimizeMenu (minimizeMenu m) = minimizeMenu m.
Proof.
  destruct m as [e0 h mi cl tt si it bt]. munfold. msimpl.
  rewrite (bool_decide_eq_false_2 ("expanded" ∈ _)) by set_solver.
  repeat split; try reflexivity; try set_solver.
  f_equal. set_solver.
Qed.

End Menu.

Section MenuSearch.
Import HomaraMenu.

Lemma shown_setDisplay_flex e : shown (setDisplay "flex" e) = true.
Proof. reflexivity. Qed.

Lemma shown_setDisplay_none e : shown (setDisplay "none" e) = false.
Proof. reflexivity. Qed.

(** X19. Typing in the search box shows exactly the items whose label contains
    the query, both taken in lower case, and every item when the query is
    blank, that is, a sequence (possibly empty) of the white space that trim
    removes; the labels, their order and the state of the menu are not
    touched. *)
Theorem search_shows_matching_items query m :
  map shown (menuItems (fst (handle (SearchInput query) m))) =
    map (fun e => isBlank query ||
                  includes (toLowerCase (textContent e)) (toLowerCase query))
        (menuItems m) /\
  map shown (bottomMenuItems (fst (handle (SearchInput query) m))) =
    map (fun e => isBlank query ||
                  includes (toLowerCase (textContent e)) (toLowerCase query))
        (bottomMenuItems m) /\
  map textContent (menuItems (fst (handle (SearchInput query) m))) =
    map textContent (menuItems m) /\
  map textContent (bottomMenuItems (fst (handle (SearchInput query) m))) =
    map textContent (bottomMenuItems m) /\
  searchInput (fst (handle (SearchInput query) m)) = query /\
  isExpanded (fst (handle (SearchInput query) m)) = isExpanded m /\
  isHovered (fst (handle (SearchInput query) m)) = isHovered m /\
  isMinimized (fst (handle (SearchInput query) m)) = isMinimized m /\
  (isBlank query = true <->
   exists cs, forallb isWhiteSpace cs = true /\ query = utf8s cs) /\
  (forall c, isWhiteSpace c = true <-> In c whiteSpaces).
Proof.
  cbn [handle fst]. unfold handleSearch.
  assert (forall c, isWhiteSpace c = true <-> In c whiteSpaces) as Hws.
  { intros c. unfold isWhiteSpace. rewrite existsb_exists. split.
    - intros (x & Hin & E). apply N.eqb_eq in E. subst x. exact Hin.
    - intros Hin. exists c. split; [exact Hin|apply N.eqb_refl]. }
  pose proof (isBlank_spec query) as Hb.
  destruct (isBlank query) eqn:E;
    unfold showAllMenuItems, filterMenuItems, setItems, setSearchInput;
    cbn [menuItems bottomMenuItems searchInput isExpanded isHovered isMinimized orb];
    rewrite !map_map; repeat split; try reflexivity; try apply Hb; try apply Hws.
  all: apply map_ext; intros e; unfold setDisplay.
  all: destruct (includes _ _); reflexivity.
Qed.

(** A query that is one no-break space (U+00A0, the bytes C2 A0) is blank
    and shows every item; so is one that mixes a space, an ideographic space
    and a byte order mark; a letter is not. *)
Lemma search_blank_queries :
  isBlank (utf8 160) = true /\
  utf8 160 = String (ascii_of_N 194) (String (ascii_of_N 160) "") /\
  isBlank (" " +:+ utf8 12288 +:+ utf8 65279) = true /\
  isBlank (utf8 233) = false /\
  isBlank " a " = false /\
  map shown (menuItems (fst (handle (SearchInput (utf8 160))
                               (fst (handle (SearchInput "zzz") (init ∅ ""))))))
    = [true; true; true; true; true; true].
Proof. repeat split. Qed.

(** X20. The filter ignores the case of the query. *)
Theorem filter_ignores_case q1 q2 m :
  toLowerCase q1 = toLowerCase q2 ->
  filterMenuItems q1 m = filterMenuItems q2 m.
Proof. intros E. unfold filterMenuItems. rewrite E. reflexivity. Qed.

Lemma filter_ignores_case_witness :
  filterMenuItems "POINT" (init ∅ "") = filterMenuItems "point" (init ∅ "").
Proof. apply filter_ignores_case. vm_compute. reflexivity. Defined.

Lemma filter_shown query e :
  shown (if includes (toLowerCase (textContent e)) (toLowerCase query)
         then setDisplay "flex" e else setDisplay "none" e)
  = includes (toLowerCase (textContent e)) (toLowerCase query).
Proof. destruct (includes _ _); reflexivity. Qed.

(** X21. Extending the query can only hide items: an item the filter shows for a
    query is shown for every query contained in it. *)
Theorem longer_query_shows_fewer q1 q2 m i e1 e2 :
  includes q2 q1 = true ->
  nth_error (menuItems (filterMenuItems q1 m) ++ bottomMenuItems (filterMenuItems q1 m)) i
    = Some e1 ->
  nth_error (menuItems (filterMenuItems q2 m) ++ bottomMenuItems (filterMenuItems q2 m)) i
    = Some e2 ->
  shown e2 = true ->
  shown e1 = true /\ textContent e1 = textContent e2.
Proof.
  intros Hq H1 H2 Hs. unfold filterMenuItems, setItems in H1, H2.
  cbn [menuItems bottomMenuItems] in H1, H2.
  rewrite <- map_app in H1, H2. rewrite nth_error_map in H1, H2.
  destruct (nth_error (menuItems m ++ bottomMenuItems m) i) as [e|]; [|discriminate].
  cbn in H1, H2. injection H1 as <-. injection H2 as <-.
  split.
  - rewrite filter_shown in Hs. rewrite filter_shown.
    eapply includes_trans; [exact Hs|]. apply includes_toLowerCase. exact Hq.
  - clear Hs.
    destruct (includes _ (toLowerCase q1)), (includes _ (toLowerCase q2)); reflexivity.
Qed.

Lemma longer_query_shows_fewer_witness :
  exists e1 e2,
    nth_error (menuItems (filterMenuItems "Po" (init ∅ ""))
               ++ bottomMenuItems (filterMenuItems "Po" (init ∅ ""))) 4 = Some e1 /\
    nth_error (menuItems (filterMenuItems "Point" (init ∅ ""))
               ++ bottomMenuItems (filterMenuItems "Point" (init ∅ ""))) 4 = Some e2 /\
    shown e1 = true /\ textContent e1 = "Edit Your Point".
Proof.
  eexists _, _. split; [vm_compute; reflexivity|]. split; [vm_compute; reflexivity|].
  destruct (longer_query_shows_fewer "Po" "Point" (init ∅ "") 4
              {| textContent := "Edit Your Point"; display := "flex" |}
              {| textContent := "Edit Your Point"; display := "flex" |})
    as [H _]; try (vm_compute; reflexivity).
  split; [exact H|reflexivity].
Defined.

(** X22. Escape in the search box empties it and shows every item again,
    whatever a filter had hidden. *)
Theorem escape_clears_search m :
  searchInput (fst (handle (SearchKeyDown "Escape") m)) = "" /\
  forallb shown (menuItems (fst (handle (SearchKeyDown "Escape") m))) = true /\
  forallb shown (bottomMenuItems (fst (handle (SearchKeyDown "Escape") m))) = true /\
  map textContent (menuItems (fst (handle (SearchKeyDown "Escape") m)))
    = map textContent (menuItems m) /\
  map textContent (bottomMenuItems (fst (handle (SearchKeyDown "Escape") m)))
    = map textContent (bottomMenuItems m).
Proof.
  cbn [handle String.eqb Ascii.eqb Bool.eqb fst].
  unfold clearSearch, showAllMenuItems, setItems, setSearchInput.
  cbn [menuItems bottomMenuItems searchInput].
  rewrite !map_map. repeat split; try reflexivity.
  all: rewrite forallb_forall; intros e He; apply in_map_iff in He;
    destruct He as (e0 & <- & _); reflexivity.
Qed.

(** X23. Every entry of the menu announces itself: clicking an item navigates
    home for the Home entry and otherwise alerts "Navigating to: " followed
    by the label the item shows; so the table of handleMenuClick agrees with
    the two configurations. An action the table lacks is announced by its
    key. *)
Theorem menu_click_names_the_item :
  (forall item,
     In item (menuConfig ++ bottomMenuConfig) ->
     handleMenuClick (action item) =
       Some (if String.eqb (action item) "home" then Navigate "../index.html"
             else Alert ("Navigating to: " +:+ text item))) /\
  (forall key,
     tableLookup key actionNames = None -> inherited key = false ->
     handleMenuClick key = Some (Alert ("Navigating to: " +:+ key))).
Proof.
  split.
  - intros item Hin. cbn in Hin.
    repeat (destruct Hin as [<-|Hin]; [vm_compute; reflexivity|]). contradiction.
  - intros key Hk Hi. unfold handleMenuClick.
    destruct (String.eqb key "home") eqn:E.
    + apply String.eqb_eq in E. subst key. discriminate.
    + rewrite Hk, Hi. reflexivity.
Qed.

End MenuSearch.

(** ** auth.js *)

Section AuthModal.
Import HomaraAuthModal.

Lemma eqb_empty_false s : String.eqb s "" = false -> s <> "".
Proof. intros E ->. discriminate. Qed.

(** X24. The sign-up form creates an account only from checked input: the e-mail
    address and the user name are the trimmed values of their inputs (the
    value but for white space at its two ends, so trimming them again changes
    nothing) and are not empty, and the password, taken as typed, has at
    least six code units. *)
Theorem signup_submits_only_checked_input emailValue usernameValue passwordValue m
    email password username :
  handleSignup emailValue usernameValue passwordValue m = CreateUser email password username ->
  email = trim emailValue /\ username = trim usernameValue /\ password = passwordValue /\
  email <> [] /\ username <> [] /\ 6 <= length password /\
  trim email = email /\ trim username = username /\
  (forall value,
     In value [emailValue; usernameValue] ->
     (exists l r,
        value = l ++ trim value ++ r /\
        forallb isWhiteSpace l = true /\ forallb isWhiteSpace r = true) /\
     (forall c, head (trim value) = Some c -> isWhiteSpace c = false) /\
     (forall c, last (trim value) = Some c -> isWhiteSpace c = false)).
Proof.
  unfold handleSignup. cbv zeta.
  destruct (isEmpty (trim emailValue)) eqn:E1; [discriminate|].
  destruct (isEmpty (trim usernameValue)) eqn:E2; [discriminate|].
  destruct (isEmpty passwordValue) eqn:E3; [discriminate|].
  cbn [orb]. destruct (length passwordValue <? 6)%nat eqn:E4; [discriminate|].
  intros [= <- <- <-]. apply Nat.ltb_ge in E4.
  repeat split; auto using isEmpty_false, trim_idempotent; apply trim_spec.
Qed.

Lemma signup_submits_only_checked_input_witness :
  handleSignup ([160; 32]%N ++ codeUnits "ann@example.org" ++ [12288]%N) (codeUnits "ann")
    (codeUnits "secret1")
    {| authOverlay := true; signupModal := true; loginModal := false;
       editProfileModal := false; signupError := ""; loginError := "" |}
  = CreateUser (codeUnits "ann@example.org") (codeUnits "secret1") (codeUnits "ann") /\
  6 <= length (codeUnits "secret1").
Proof.
  assert (handleSignup ([160; 32]%N ++ codeUnits "ann@example.org" ++ [12288]%N) (codeUnits "ann")
            (codeUnits "secret1")
            {| authOverlay := true; signupModal := true; loginModal := false;
               editProfileModal := false; signupError := ""; loginError := "" |}
          = CreateUser (codeUnits "ann@example.org") (codeUnits "secret1") (codeUnits "ann"))
    as H by (vm_compute; reflexivity).
  split; [exact H|].
  apply (signup_submits_only_checked_input _ _ _ _ _ _ _ H).
Defined.

(** X25. A refused sign-up shows one of two messages in the sign-up error
    element and touches nothing else; the message about the password's
    length is shown only when all three fields are filled in, the password
    with one to five code units. *)
Theorem signup_refusal_shows_one_error emailValue usernameValue passwordValue m m' :
  handleSignup emailValue usernameValue passwordValue m = Refused m' ->
  loginError m' = loginError m /\
  authOverlay m' = authOverlay m /\ signupModal m' = signupModal m /\
  loginModal m' = loginModal m /\ editProfileModal m' = editProfileModal m /\
  ((signupError m' = "Please fill in all fields" /\
    (trim emailValue = [] \/ trim usernameValue = [] \/ passwordValue = [])) \/
   (signupError m' = "Password must be at least 6 characters" /\
    trim emailValue <> [] /\ trim usernameValue <> [] /\
    0 < length passwordValue < 6)).
Proof.
  unfold handleSignup. cbv zeta.
  destruct (isEmpty (trim emailValue)) eqn:E1.
  { intros [= <-]. apply isEmpty_true in E1. repeat split; auto. }
  destruct (isEmpty (trim usernameValue)) eqn:E2.
  { intros [= <-]. apply isEmpty_true in E2. repeat split; auto. }
  destruct (isEmpty passwordValue) eqn:E3.
  { intros [= <-]. apply isEmpty_true in E3. repeat split; auto. }
  cbn [orb]. destruct (length passwordValue <? 6)%nat eqn:E4; [|discriminate].
  intros [= <-]. apply Nat.ltb_lt in E4.
  repeat split; auto. right. repeat split; auto using isEmpty_false.
  destruct passwordValue; [discriminate|cbn; lia].
Qed.

Lemma signup_refusal_shows_one_error_witness :
  exists m',
    handleSignup (codeUnits "ann@example.org") (codeUnits "ann") (codeUnits "abc")
      {| authOverlay := true; signupModal := true; loginModal := false;
         editProfileModal := false; signupError := ""; loginError := "" |} = Refused m' /\
    signupError m' = "Password must be at least 6 characters" /\ loginError m' = "".
Proof.
  eexists. split; [vm_compute; reflexivity|]. split; [reflexivity|].
  refine (proj1 (signup_refusal_shows_one_error (codeUnits "ann@example.org") (codeUnits "ann")
                   (codeUnits "abc")
                   {| authOverlay := true; signupModal := true; loginModal := false;
                      editProfileModal := false; signupError := ""; loginError := "" |}
                   _ _)).
  vm_compute. reflexivity.
Defined.

(** X26. The log-in form signs in exactly when the trimmed e-mail address and
    the password are both non-empty, with these two values; otherwise it
    shows "Please fill in all fields" in the log-in error element and leaves
    the sign-up error as it was. It never creates an account. An e-mail
    address that is white space only, a no-break space for one, is empty
    once trimmed. *)
Theorem login_form_checks emailValue passwordValue m :
  match handleLogin emailValue passwordValue m with
  | SignIn email password =>
      email = trim emailValue /\ password = passwordValue /\ email <> [] /\ password <> []
  | Refused m' =>
      (trim emailValue = [] \/ passwordValue = []) /\
      loginError m' = "Please fill in all fields" /\
      signupError m' = signupError m
  | CreateUser _ _ _ => False
  end /\
  (forallb isWhiteSpace emailValue = true -> trim emailValue = []) /\
  (exists l r,
     emailValue = l ++ trim emailValue ++ r /\
     forallb isWhiteSpace l = true /\ forallb isWhiteSpace r = true) /\
  (forall c, head (trim emailValue) = Some c -> isWhiteSpace c = false) /\
  (forall c, last (trim emailValue) = Some c -> isWhiteSpace c = false).
Proof.
  split; [|split; [apply trimStart_blank|apply trim_spec]].
  unfold handleLogin. cbv zeta.
  destruct (isEmpty (trim emailValue)) eqn:E1.
  { apply isEmpty_true in E1. cbn. auto. }
  destruct (isEmpty passwordValue) eqn:E2.
  { apply isEmpty_true in E2. cbn. auto. }
  cbn. repeat split; auto using isEmpty_false.
Qed.

(** X27. Showing either sign-in modal, or closing them, leaves at most one of the
    two open, with the overlay active exactly when one is, and with both
    error texts empty; the edit-profile modal keeps its state. *)
Theorem one_sign_in_modal_at_a_time m :
  Forall (fun f : t -> t =>
            signupModal (f m) && loginModal (f m) = false /\
            signupModal (f m) || loginModal (f m) = authOverlay (f m) /\
            signupError (f m) = "" /\ loginError (f m) = "" /\
            editProfileModal (f m) = editProfileModal m)
         [showSignupModal; showLoginModal; closeModals].
Proof. repeat constructor. Qed.

(** X28. Escape closes the sign-in modals at once, but an open edit-profile modal
    only at the second press: the first finds the overlay active and closes
    the overlay alone, leaving the modal active under no overlay. *)
Theorem escape_twice_closes_edit_profile m :
  authOverlay (escape (showEditProfileModal m)) = false /\
  editProfileModal (escape (showEditProfileModal m)) = true /\
  editProfileModal (escape (escape (showEditProfileModal m))) = false /\
  signupModal (escape (showEditProfileModal m)) = false /\
  loginModal (escape (showEditProfileModal m)) = false.
Proof. repeat split. Qed.

(** X29. The text shown for a failed Firebase call is never empty: a known code
    gives its text whatever the error's message, and any other error gives
    its own message, or the generic text when it has none. *)
Theorem firebase_error_message_is_never_empty error :
  HomaraAuth.getFirebaseErrorMessage error <> "" /\
  (forall code m1 m2,
     In code ["auth/email-already-in-use"; "auth/invalid-email"; "auth/weak-password";
              "auth/user-not-found"; "auth/wrong-password"; "auth/too-many-requests"] ->
     HomaraAuth.getFirebaseErrorMessage
       {| HomaraAuth.code := Some code; HomaraAuth.message := m1 |}
     = HomaraAuth.getFirebaseErrorMessage
         {| HomaraAuth.code := Some code; HomaraAuth.message := m2 |}) /\
  (HomaraAuth.code error = None ->
   HomaraAuth.getFirebaseErrorMessage error =
     if String.eqb (HomaraAuth.message error) "" then "An error occurred. Please try again"
     else HomaraAuth.message error).
Proof.
  split; [|split].
  - destruct error as [c m]. unfold HomaraAuth.getFirebaseErrorMessage.
    cbn [HomaraAuth.code HomaraAuth.message].
    assert ((if String.eqb m "" then "An error occurred. Please try again" else m) <> "") as Hother.
    { destruct (String.eqb m "") eqn:E; [discriminate|]. apply eqb_empty_false. exact E. }
    destruct c as [c|]; [|exact Hother].
    repeat (match goal with |- context [if String.eqb c ?k then _ else _] =>
              destruct (String.eqb c k); [discriminate|] end).
    exact Hother.
  - intros code m1 m2 Hin. cbn in Hin.
    repeat (destruct Hin as [<-|Hin]; [reflexivity|]). contradiction.
  - intros Hc. destruct error as [c m]. cbn in Hc. subst c. reflexivity.
Qed.

End AuthModal.
